(** * thor: the EVM state facade (vm/statedb) and the block event loops (cmd/thor)

    A shallow embedding of [vm/statedb/statedb.go] and of the [consent] and
    [pack] methods of [cmd/thor/client.go], with the properties of the
    specification proved about them.

    Conventions.
    - A Go [int] is a [Z]; the depths and revisions met here stay far from
      the 64-bit bounds, so no wrap-around is written.
    - A [*big.Int] is a pointer into a heap of integer cells; [new(big.Int)]
      allocates a cell.  A pointer outside the heap stands for [nil] where
      it is dereferenced, and dereferencing it panics; an index is nil only
      until an allocation gives it a cell, so what is said of a nil pointer
      is said of one dereference of it.
    - Every call the facade makes on the underlying [State] or on its
      journal is appended to a log of calls, so that "reads nothing",
      "writes nothing" and "calls X before Y" are statements about that log.
    - A [select] is a function of the branch that fired. *)

From stdpp Require Import base option list gmap strings.
From Stdlib Require Import ZArith Lia.

Local Open Scope Z_scope.

(** ** Basic types *)

(** [thor.Address] (20 bytes) and [thor.Hash] (32 bytes), as numbers. *)
Definition Address := N.
Definition Hash := N.
Definition bytes := list Z.

(** ** stackedmap *)

Module stackedmap.
Section StackedMap.
Context {K V : Type}.

(** Modelled from the spec: when two keys name one binding.  The caller
    says so, as its keys are of its own types: the spec has bindings that
    shadow one another and log entries "keyed by fresh singleton", which
    never do. *)
Variable same : K -> K -> bool.

(** Modelled from the spec: package [stackedmap] is not among the sources.
    A frame is a key to value overlay; its bindings are kept in insertion
    order of the first write of each key. *)
Definition frame := list (K * V).

(** Modelled from the spec: the journal is a base frame (depth 0, into
    which insertion is permitted) under a stack of pushed frames, the
    topmost first. *)
Record StackedMap := mk {
  base : frame;
  frames : list frame
}.

(** Modelled from the spec: the journal made by [stackedmap.New]; the
    default getter stays with the caller, see [getter]. *)
Definition New : StackedMap := mk [] [].

Fixpoint frame_lookup (k : K) (f : frame) : option V :=
  match f with
  | [] => None
  | (k', v) :: f' => if same k k' then Some v else frame_lookup k f'
  end.

Fixpoint frame_put (k : K) (v : V) (f : frame) : frame :=
  match f with
  | [] => [(k, v)]
  | (k', v') :: f' =>
      if same k k' then (k', v) :: f' else (k', v') :: frame_put k v f'
  end.

Fixpoint frames_lookup (k : K) (fs : list frame) : option V :=
  match fs with
  | [] => None
  | f :: fs' =>
      match frame_lookup k f with
      | Some v => Some v
      | None => frames_lookup k fs'
      end
  end.

(** Modelled from the spec: "returns the topmost-frame binding for key";
    [None] is the case where the default getter is consulted. *)
Definition lookup (sm : StackedMap) (k : K) : option V :=
  match frames_lookup k (frames sm) with
  | Some v => Some v
  | None => frame_lookup k (base sm)
  end.

(** Modelled from the spec: "writes (key, value) into the topmost frame,
    shadowing any deeper binding. Insertion into the empty-depth base
    frame is permitted." *)
Definition Put (sm : StackedMap) (k : K) (v : V) : StackedMap :=
  match frames sm with
  | [] => mk (frame_put k v (base sm)) []
  | f :: fs => mk (base sm) (frame_put k v f :: fs)
  end.

(** Modelled from the spec: "current frame count". *)
Definition Depth (sm : StackedMap) : Z := Z.of_nat (length (frames sm)).

(** Modelled from the spec: "opens a new empty frame"; frames are counted
    from 1, the new frame of a journal of depth [d] being frame [d + 1].
    The number returned is the depth before the push, the revision that
    takes the frame back: in the spec's scenarios S2 and S6 and in its
    invariant 3, [revert_to_snapshot] of the number a snapshot returned
    undoes what followed the snapshot, and [revert_to_snapshot(rev)]
    reverts [depth - rev] times, which is at least once only for a number
    under the depth the push makes. *)
Definition Push (sm : StackedMap) : Z * StackedMap :=
  (Depth sm, mk (base sm) ([] :: frames sm)).

(** Modelled from the spec: "discards all frames above depth d ... Panics
    if d < 0 or d > depth"; [None] is the panic. *)
Definition PopTo (sm : StackedMap) (d : Z) : option StackedMap :=
  if decide (d < 0 \/ Depth sm < d) then None
  else Some (mk (base sm) (drop (Z.to_nat (Depth sm - d)) (frames sm))).

(** The bindings of the frames [above] shadow those of [f]. *)
Definition live_in (above : list frame) (f : frame) : list (K * V) :=
  filter (fun kv => frames_lookup kv.1 above = None) f.

(** [fs] is topmost first, so the deepest frame is visited first; [above]
    collects the frames over the one being traversed. *)
Fixpoint live_under (above : list frame) (fs : list frame) : list (K * V) :=
  match fs with
  | [] => []
  | f :: below => live_under (above ++ [f]) below ++ live_in above f
  end.

(** Modelled from the spec: the live pairs "across all frames in insertion
    order of first observation", where live "means not shadowed by a later
    write to the same key above the frame currently being traversed". *)
Definition entries (sm : StackedMap) : list (K * V) :=
  live_in (frames sm) (base sm) ++ live_under [] (frames sm).

(** Modelled from the spec: "invokes visit(key, value) for every live
    pair ..., stopping when visit returns false".  The visitor threads a
    state [T] and may fail, [None], as a Go callback may panic. *)
Fixpoint visit_all {T : Type} (visit : K -> V -> T -> option (bool * T))
    (es : list (K * V)) (t : T) : option T :=
  match es with
  | [] => Some t
  | (k, v) :: es' =>
      match visit k v t with
      | None => None
      | Some (true, t') => visit_all visit es' t'
      | Some (false, t') => Some t'
      end
  end.

Definition Journal {T : Type} (sm : StackedMap)
    (visit : K -> V -> T -> option (bool * T)) (t : T) : option T :=
  visit_all visit (entries sm) t.
End StackedMap.
Arguments StackedMap : clear implicits.
Arguments frame : clear implicits.
End stackedmap.

(** ** vm/statedb *)

(** The four key types of the journal: [suicideFlagKey common.Address],
    [preimageKey common.Hash], [refundKey struct{}] and [logKey struct{}]. *)
Inductive key :=
  | suicideFlagKey (a : Address)
  | preimageKey (h : Hash)
  | refundKey
  | logKey.

#[global] Instance key_eq_dec : EqDecision key.
Proof. solve_decision. Defined.

(** Modelled from the spec: two writes under one suicide, preimage or
    refund key are writes to one binding; every write under [logKey] is an
    entry of its own ("log entry keyed by fresh singleton"), so that the
    journal holds the logs collected and not the last one alone. *)
Definition same_key (k k' : key) : bool :=
  match k with
  | logKey => false
  | _ => bool_decide (k = k')
  end.

(** go-ethereum's [types.Log], with the three fields [vmlogToLog] reads. *)
Record types_Log := mk_types_Log {
  vm_Address : Address;
  vm_Topics : list Hash;
  vm_Data : bytes
}.

(** [type Log struct { Address; Topics; Data }]. *)
Record Log := mk_Log {
  log_Address : Address;
  log_Topics : list Hash;
  log_Data : bytes
}.

(** A pointer to a [big.Int]: the index of its cell in the heap. *)
Definition ptr := nat.

(** The [interface{}] values met in the journal: [bool], [*big.Int],
    [[]byte], [*types.Log] (only the default of [logKey], always nil) and
    [*Log]. *)
Inductive value :=
  | VBool (b : bool)
  | VBigInt (p : ptr)
  | VBytes (b : bytes)
  | VTypesLog (l : option types_Log)
  | VLog (l : Log).

(** The [State] interface the facade is built on.  It is declared outside
    the sources at hand and is taken as a parameter; big integers cross it
    by value. *)
Class State (S : Type) := {
  state_GetBalance : S -> Address -> Z;
  state_GetCode : S -> Address -> bytes;
  state_GetCodeHash : S -> Address -> Hash;
  state_GetStorage : S -> Address -> Hash -> Hash;
  state_Exists : S -> Address -> bool;
  state_SetBalance : S -> Address -> Z -> S;
  state_SetCode : S -> Address -> bytes -> S;
  state_SetStorage : S -> Address -> Hash -> Hash -> S;
  state_Delete : S -> Address -> S;
  state_NewCheckpoint : S -> S;
  state_Revert : S -> S
}.

(** The calls made on the underlying state and on the journal. *)
Inductive call :=
  | CGetBalance (a : Address)
  | CGetCode (a : Address)
  | CGetCodeHash (a : Address)
  | CGetStorage (a : Address) (k : Hash)
  | CExists (a : Address)
  | CSetBalance (a : Address) (v : Z)
  | CSetCode (a : Address) (c : bytes)
  | CSetStorage (a : Address) (k v : Hash)
  | CDelete (a : Address)
  | CNewCheckpoint
  | CRevert
  | CGet (k : key)
  | CPut (k : key) (v : value)
  | CPush
  | CPopTo (d : Z)
  | CDepth
  | CJournal.

(** What a panic carries. *)
Inductive panic :=
  | InvalidRevision (rev depth : Z)
  | NilDereference
  | TypeAssertion
  | PopOutOfRange.

(** [type StateDB struct { state State; repo *stackedmap.StackedMap }]. *)
Record StateDB (S : Type) := mk_StateDB {
  state : S;
  repo : stackedmap.StackedMap key value
}.
Arguments mk_StateDB {S} state repo.
Arguments state {S} s.
Arguments repo {S} s.

(** The facade, the heap of [big.Int] cells and the log of calls. *)
Record world (S : Type) := mk_world {
  db : StateDB S;
  heap : list Z;
  calls : list call
}.
Arguments mk_world {S} db heap calls.
Arguments db {S} w.
Arguments heap {S} w.
Arguments calls {S} w.

(** A method either returns, leaving a world behind, or panics. *)
Inductive result (S A : Type) :=
  | Ok (a : A) (w : world S)
  | Panic (e : panic).
Arguments Ok {S A} a w.
Arguments Panic {S A} e.

Definition M (S A : Type) := world S -> result S A.

Definition ret {S A} (a : A) : M S A := fun w => Ok a w.

Definition bind {S A B} (m : M S A) (f : A -> M S B) : M S B := fun w =>
  match m w with
  | Ok a w' => f a w'
  | Panic e => Panic e
  end.

Declare Scope M_scope.
Delimit Scope M_scope with M.
Notation "x <- m ;; k" := (bind m (fun x => k))
  (at level 100, m at next level, k at level 200, right associativity) : M_scope.
Notation "m ;; k" := (bind m (fun _ => k))
  (at level 100, k at level 200, right associativity) : M_scope.
Local Open Scope M_scope.

Section StateDB.
Context {S : Type} `{!State S}.
Abbreviation M := (M S).

Definition throw {A} (e : panic) : M A := fun _ => Panic e.

Definition record (c : call) : M unit := fun w =>
  Ok tt (mk_world (db w) (heap w) (calls w ++ [c])).

Definition read_state {A} (f : S -> A) : M A := fun w => Ok (f (state (db w))) w.

Definition write_state (f : S -> S) : M unit := fun w =>
  Ok tt (mk_world (mk_StateDB (f (state (db w))) (repo (db w))) (heap w) (calls w)).

Definition read_repo {A} (f : stackedmap.StackedMap key value -> A) : M A :=
  fun w => Ok (f (repo (db w))) w.

Definition write_repo (r : stackedmap.StackedMap key value) : M unit := fun w =>
  Ok tt (mk_world (mk_StateDB (state (db w)) r) (heap w) (calls w)).

(** [new(big.Int)] holding [z]. *)
Definition new_big (z : Z) : M ptr := fun w =>
  Ok (length (heap w)) (mk_world (db w) (heap w ++ [z]) (calls w)).

(** Reading the integer behind a [*big.Int]; an index the heap has no cell
    for is a nil pointer. *)
Definition big_val (p : ptr) : M Z := fun w =>
  match heap w !! p with
  | Some z => Ok z w
  | None => Panic NilDereference
  end.

(** The methods of [s.state], each leaving its call in the log. *)
Definition s_state_GetBalance (a : Address) : M ptr :=
  record (CGetBalance a);; v <- read_state (fun s => state_GetBalance s a);; new_big v.
Definition s_state_SetBalance (a : Address) (p : ptr) : M unit :=
  v <- big_val p;; record (CSetBalance a v);; write_state (fun s => state_SetBalance s a v).
Definition s_state_GetCode (a : Address) : M bytes :=
  record (CGetCode a);; read_state (fun s => state_GetCode s a).
Definition s_state_GetCodeHash (a : Address) : M Hash :=
  record (CGetCodeHash a);; read_state (fun s => state_GetCodeHash s a).
Definition s_state_SetCode (a : Address) (c : bytes) : M unit :=
  record (CSetCode a c);; write_state (fun s => state_SetCode s a c).
Definition s_state_GetStorage (a : Address) (k : Hash) : M Hash :=
  record (CGetStorage a k);; read_state (fun s => state_GetStorage s a k).
Definition s_state_SetStorage (a : Address) (k v : Hash) : M unit :=
  record (CSetStorage a k v);; write_state (fun s => state_SetStorage s a k v).
Definition s_state_Exists (a : Address) : M bool :=
  record (CExists a);; read_state (fun s => state_Exists s a).
Definition s_state_Delete (a : Address) : M unit :=
  record (CDelete a);; write_state (fun s => state_Delete s a).
Definition s_state_NewCheckpoint : M unit :=
  record CNewCheckpoint;; write_state state_NewCheckpoint.
Definition s_state_Revert : M unit :=
  record CRevert;; write_state state_Revert.

(** The closure [getter] of [New]: the default of each key type.  The
    [refundKey] default is a fresh [&big.Int{}] at every call; the final
    [panic] of the Go closure is out of reach, [key] having no other case. *)
Definition getter (k : key) : M (value * bool) :=
  match k with
  | suicideFlagKey _ => ret (VBool false, true)
  | refundKey => p <- new_big 0;; ret (VBigInt p, true)
  | preimageKey _ => ret (VBytes [], true)
  | logKey => ret (VTypesLog None, true)
  end.

(** The methods of [s.repo], each leaving its call in the log. *)
Definition s_repo_Get (k : key) : M (value * bool) :=
  record (CGet k);;
  o <- read_repo (fun r => stackedmap.lookup same_key r k);;
  match o with
  | Some v => ret (v, true)
  | None => getter k
  end.
Definition s_repo_Put (k : key) (v : value) : M unit :=
  record (CPut k v);;
  r <- read_repo (fun r => stackedmap.Put same_key r k v);; write_repo r.
Definition s_repo_Push : M Z :=
  record CPush;;
  dr <- read_repo stackedmap.Push;; write_repo dr.2;; ret dr.1.
Definition s_repo_Depth : M Z :=
  record CDepth;; read_repo stackedmap.Depth.
Definition s_repo_PopTo (d : Z) : M unit :=
  record (CPopTo d);;
  o <- read_repo (fun r => stackedmap.PopTo r d);;
  match o with
  | Some r => write_repo r
  | None => throw PopOutOfRange
  end.
Definition s_repo_Journal {T} (visit : key -> value -> T -> option (bool * T))
    (t : T) : M T :=
  record CJournal;;
  o <- read_repo (fun r => stackedmap.Journal same_key r visit t);;
  match o with
  | Some t' => ret t'
  | None => throw TypeAssertion
  end.

(** [New]: the facade over [state], with an empty journal. *)
Definition New (st : S) : StateDB S := mk_StateDB st stackedmap.New.

(** The type assertions to [*big.Int] and to [bool]: each panics on a value
    of another type. *)
Definition as_big (v : value) : M ptr :=
  match v with VBigInt p => ret p | _ => throw TypeAssertion end.
Definition as_bool (v : value) : M bool :=
  match v with VBool b => ret b | _ => throw TypeAssertion end.

(** [GetRefund] returns total refund during VM life-cycle. *)
Definition GetRefund : M ptr :=
  v <- s_repo_Get refundKey;; as_big v.1.

(** The visitor [GetPreimages] hands to [Journal]. *)
Definition preimage_visitor {T} (cb : Hash -> bytes -> T -> bool * T)
    (k : key) (v : value) (t : T) : option (bool * T) :=
  match k with
  | preimageKey h =>
      match v with
      | VBytes b => Some (cb h b t)
      | _ => None
      end
  | _ => Some (true, t)
  end.

(** [GetPreimages] returns preimages produced by VM. *)
Definition GetPreimages {T} (cb : Hash -> bytes -> T -> bool * T) (t : T) : M T :=
  s_repo_Journal (preimage_visitor cb) t.

(** The visitor [GetLogs] hands to [Journal]. *)
Definition log_visitor {T} (cb : Log -> T -> bool * T)
    (k : key) (v : value) (t : T) : option (bool * T) :=
  match k with
  | logKey =>
      match v with
      | VLog l => Some (cb l t)
      | _ => None
      end
  | _ => Some (true, t)
  end.

(** [GetLogs] return the logs collected during VM life-cycle. *)
Definition GetLogs {T} (cb : Log -> T -> bool * T) (t : T) : M T :=
  s_repo_Journal (log_visitor cb) t.

Definition CreateAccount (addr : Address) : M unit := ret tt.

Definition GetBalance (addr : Address) : M ptr := s_state_GetBalance addr.

(** [amount.Sign() == 0]. *)
Definition sign_is_zero (amount : ptr) : M bool :=
  z <- big_val amount;; ret (bool_decide (Z.sgn z = 0)).

(** [new(big.Int).Sub(x, y)] and [new(big.Int).Add(x, y)]. *)
Definition new_big_Sub (x y : ptr) : M ptr :=
  a <- big_val x;; b <- big_val y;; new_big (a - b).
Definition new_big_Add (x y : ptr) : M ptr :=
  a <- big_val x;; b <- big_val y;; new_big (a + b).

Definition SubBalance (addr : Address) (amount : ptr) : M unit :=
  z <- sign_is_zero amount;;
  if z then ret tt
  else
    balance <- s_state_GetBalance addr;;
    r <- new_big_Sub balance amount;;
    s_state_SetBalance addr r.

Definition AddBalance (addr : Address) (amount : ptr) : M unit :=
  z <- sign_is_zero amount;;
  if z then ret tt
  else
    balance <- s_state_GetBalance addr;;
    r <- new_big_Add balance amount;;
    s_state_SetBalance addr r.

Definition GetNonce (addr : Address) : M Z := ret 0.
Definition SetNonce (addr : Address) (nonce : Z) : M unit := ret tt.

Definition GetCodeHash (addr : Address) : M Hash := s_state_GetCodeHash addr.
Definition GetCode (addr : Address) : M bytes := s_state_GetCode addr.
Definition GetCodeSize (addr : Address) : M Z :=
  c <- s_state_GetCode addr;; ret (Z.of_nat (length c)).
Definition SetCode (addr : Address) (code : bytes) : M unit :=
  s_state_SetCode addr code.

(** [HasSuicided]: only check suicide flag here. *)
Definition HasSuicided (addr : Address) : M bool :=
  v <- s_repo_Get (suicideFlagKey addr);; as_bool v.1.

(** [Suicide]: 1, delete account; 2, set suicide flag. *)
Definition Suicide (addr : Address) : M bool :=
  e <- s_state_Exists addr;;
  if negb e then ret false
  else
    s_state_Delete addr;;
    s_repo_Put (suicideFlagKey addr) (VBool true);;
    ret true.

Definition GetState (addr : Address) (k : Hash) : M Hash :=
  s_state_GetStorage addr k.
Definition SetState (addr : Address) (k v : Hash) : M unit :=
  s_state_SetStorage addr k v.

Definition Exist (addr : Address) : M bool := s_state_Exists addr.
Definition Empty (addr : Address) : M bool :=
  e <- s_state_Exists addr;; ret (negb e).

Definition AddRefund (gas : ptr) : M unit :=
  v <- s_repo_Get refundKey;;
  p <- as_big v.1;;
  total <- new_big_Add p gas;;
  s_repo_Put refundKey (VBigInt total).

Definition AddPreimage (hash : Hash) (preimage : bytes) : M unit :=
  s_repo_Put (preimageKey hash) (VBytes preimage).

(** [vmlogToLog]: the topics are copied one by one, the rest is taken over. *)
Definition vmlogToLog (vmlog : types_Log) : Log :=
  mk_Log (vm_Address vmlog) (map (fun t => t) (vm_Topics vmlog)) (vm_Data vmlog).

(** [AddLog]: a nil [vmlog] is dereferenced by [vmlogToLog]. *)
Definition AddLog (vmlog : option types_Log) : M unit :=
  match vmlog with
  | None => throw NilDereference
  | Some l => s_repo_Put logKey (VLog (vmlogToLog l))
  end.

Definition Snapshot : M Z :=
  s_state_NewCheckpoint;;
  rev <- s_repo_Push;;
  ret rev.

(** [for i := 0; i < n; i++ { body }]. *)
Fixpoint times (n : nat) (body : M unit) : M unit :=
  match n with
  | O => ret tt
  | Datatypes.S n' => body;; times n' body
  end.

(** [rev < 0 || rev > s.repo.Depth()]: the depth is only asked for when
    [rev] is not negative. *)
Definition invalid_revision (rev : Z) : M bool :=
  if decide (rev < 0) then ret true
  else d <- s_repo_Depth;; ret (bool_decide (rev > d)).

Definition RevertToSnapshot (rev : Z) : M unit :=
  bad <- invalid_revision rev;;
  if bad then
    d <- s_repo_Depth;; throw (InvalidRevision rev d)
  else
    d <- s_repo_Depth;;
    let revertCount := d - rev in
    times (Z.to_nat revertCount) s_state_Revert;;
    s_repo_PopTo rev.

End StateDB.

(** The test [k.(preimageKey)] and [k.(logKey)] of the two visitors. *)
Definition is_preimageKey (k : key) : bool :=
  match k with preimageKey _ => true | _ => false end.
Definition is_logKey (k : key) : bool :=
  match k with logKey => true | _ => false end.

(** *** Sequences of mutations and what the VM can observe *)

(** The mutating methods of the facade, and [Snapshot] for the snapshots
    nested inside a run. *)
Inductive mutation :=
  | mAddBalance (addr : Address) (amount : ptr)
  | mSubBalance (addr : Address) (amount : ptr)
  | mSetCode (addr : Address) (code : bytes)
  | mSetState (addr : Address) (k v : Hash)
  | mAddRefund (gas : ptr)
  | mSuicide (addr : Address)
  | mAddLog (vmlog : option types_Log)
  | mAddPreimage (hash : Hash) (preimage : bytes)
  | mSnapshot.

Section Observation.
Context {S : Type} `{!State S}.
Abbreviation M := (M S).

Definition mutate (m : mutation) : M unit :=
  match m with
  | mAddBalance addr amount => AddBalance addr amount
  | mSubBalance addr amount => SubBalance addr amount
  | mSetCode addr code => SetCode addr code
  | mSetState addr k v => SetState addr k v
  | mAddRefund gas => AddRefund gas
  | mSuicide addr => Suicide addr;; ret tt
  | mAddLog vmlog => AddLog vmlog
  | mAddPreimage hash preimage => AddPreimage hash preimage
  | mSnapshot => Snapshot;; ret tt
  end.

Fixpoint mutate_all (ms : list mutation) : M unit :=
  match ms with
  | [] => ret tt
  | m :: ms' => mutate m;; mutate_all ms'
  end.

(** What a method returns in a world; [None] when it panics. *)
Definition observe {A} (m : M A) (w : world S) : option A :=
  match m w with
  | Ok a _ => Some a
  | Panic _ => None
  end.

(** The integer behind the [*big.Int] a method returns. *)
Definition observe_big (m : M ptr) (w : world S) : option Z :=
  match m w with
  | Ok p w' => heap w' !! p
  | Panic _ => None
  end.

(** A callback that keeps every item and asks for the next. *)
Definition collect {A} (x : A) (acc : list A) : bool * list A := (true, acc ++ [x]).

Definition all_logs (w : world S) : option (list Log) :=
  observe (GetLogs collect []) w.

Definition all_preimages (w : world S) : option (list (Hash * bytes)) :=
  observe (GetPreimages (fun h b => collect (h, b)) []) w.

End Observation.

(** *** The checkpoint contract of the underlying state *)

(** Two states the facade cannot tell apart by reading. *)
Definition same_view {S} `{!State S} (s s' : S) : Prop :=
  (forall a, state_GetBalance s a = state_GetBalance s' a) /\
  (forall a, state_GetCode s a = state_GetCode s' a) /\
  (forall a, state_GetCodeHash s a = state_GetCodeHash s' a) /\
  (forall a k, state_GetStorage s a k = state_GetStorage s' a k) /\
  (forall a, state_Exists s a = state_Exists s' a).

(** [pending s] lists the states captured by the checkpoints of [s] that
    are still open, the newest first.  [NewCheckpoint] captures the current
    state, the setters leave the open checkpoints alone, and [Revert] goes
    back to the newest captured state and closes its checkpoint. *)
Class CheckpointContract (S : Type) `{!State S} := {
  pending : S -> list S;
  pending_NewCheckpoint : forall s,
    pending (state_NewCheckpoint s) = s :: pending s;
  pending_SetBalance : forall s a v, pending (state_SetBalance s a v) = pending s;
  pending_SetCode : forall s a c, pending (state_SetCode s a c) = pending s;
  pending_SetStorage : forall s a k v,
    pending (state_SetStorage s a k v) = pending s;
  pending_Delete : forall s a, pending (state_Delete s a) = pending s;
  view_Revert : forall s s0 rest,
    pending s = s0 :: rest -> same_view (state_Revert s) s0;
  pending_Revert : forall s s0 rest,
    pending s = s0 :: rest -> pending (state_Revert s) = rest
}.

(** *** What a run of mutations after a snapshot keeps *)

Section Invariant.
Context {S : Type} `{!State S} `{!CheckpointContract S}.

(** No cell of [w] has changed in [w']. *)
Definition heap_extends (w w' : world S) : Prop :=
  forall p z, heap w !! p = Some z -> heap w' !! p = Some z.

(** What a mutation may do to the journal and to the open checkpoints:
    leave both, write one binding, or open a frame and a checkpoint. *)
Inductive touches (w w' : world S) : Prop :=
  | touches_state :
      repo (db w') = repo (db w) ->
      pending (state (db w')) = pending (state (db w)) ->
      touches w w'
  | touches_journal k v :
      repo (db w') = stackedmap.Put same_key (repo (db w)) k v ->
      pending (state (db w')) = pending (state (db w)) ->
      touches w w'
  | touches_snapshot :
      repo (db w') = (stackedmap.Push (repo (db w))).2 ->
      pending (state (db w')) = state (db w) :: pending (state (db w)) ->
      touches w w'.

(** [w] is reached from [w0] by a snapshot and mutations: over the frames
    and the open checkpoints of [w0] lie as many new frames as new
    checkpoints, at least one, the deepest of them capturing the state of
    [w0]; the base frame and the cells of [w0] are as they were. *)
Definition after_snapshot (w0 w : world S) : Prop :=
  exists (newer : list (stackedmap.frame key value)) (pre : list S),
    stackedmap.frames (repo (db w)) = newer ++ stackedmap.frames (repo (db w0)) /\
    length newer = Datatypes.S (length pre) /\
    stackedmap.base (repo (db w)) = stackedmap.base (repo (db w0)) /\
    pending (state (db w)) = pre ++ state (db w0) :: pending (state (db w0)) /\
    heap_extends w0 w.

End Invariant.

(** *** A small state, to run the facade on concrete inputs *)

Module memstate.

Record account := mk_account {
  balance : Z;
  code : bytes;
  storage : gmap Hash Hash
}.

Definition no_account : account := mk_account 0 [] ∅.

(** The accounts and the stack of checkpoints, the newest first. *)
Record t := mk {
  accounts : gmap Address account;
  checkpoints : list (gmap Address account)
}.

Definition empty : t := mk ∅ [].

Definition get (s : t) (a : Address) : account :=
  default no_account (accounts s !! a).

Definition set (s : t) (a : Address) (acc : account) : t :=
  mk (<[a := acc]> (accounts s)) (checkpoints s).

Definition Revert (s : t) : t :=
  match checkpoints s with
  | [] => s
  | c :: cs => mk c cs
  end.

Fixpoint captured (cs : list (gmap Address account)) : list t :=
  match cs with
  | [] => []
  | c :: cs' => mk c cs' :: captured cs'
  end.

#[global] Instance memstate_State : State t := {|
  state_GetBalance s a := balance (get s a);
  state_GetCode s a := code (get s a);
  state_GetCodeHash s a := N.of_nat (length (code (get s a)));
  state_GetStorage s a k := default 0%N (storage (get s a) !! k);
  state_Exists s a := bool_decide (is_Some (accounts s !! a));
  state_SetBalance s a v :=
    set s a (mk_account v (code (get s a)) (storage (get s a)));
  state_SetCode s a c :=
    set s a (mk_account (balance (get s a)) c (storage (get s a)));
  state_SetStorage s a k v :=
    set s a (mk_account (balance (get s a)) (code (get s a))
                        (<[k := v]> (storage (get s a))));
  state_Delete s a := mk (delete a (accounts s)) (checkpoints s);
  state_NewCheckpoint s := mk (accounts s) (accounts s :: checkpoints s);
  state_Revert := Revert
|}.

End memstate.

(** *** The observables a revert is to restore *)

(** [w'] shows the VM what [w] shows: balances, code, storage, existence,
    suicide flags, logs and preimages read the same, and the refund reads
    the same wherever reading it in [w] does not panic. *)
Definition same_observables {S} `{!State S} (w w' : world S) : Prop :=
  (forall a, observe_big (GetBalance a) w' = observe_big (GetBalance a) w) /\
  (forall a, observe (GetCode a) w' = observe (GetCode a) w) /\
  (forall a k, observe (GetState a k) w' = observe (GetState a k) w) /\
  (forall a, observe (Exist a) w' = observe (Exist a) w) /\
  (forall t, observe_big GetRefund w = Some t -> observe_big GetRefund w' = Some t) /\
  (forall a, observe (HasSuicided a) w' = observe (HasSuicided a) w) /\
  all_logs w' = all_logs w /\
  all_preimages w' = all_preimages w.

(** The world a method leaves behind; the world it started in when it
    panics. *)
Definition world_after {S A} (m : M S A) (w : world S) : world S :=
  match m w with
  | Ok _ w' => w'
  | Panic _ => w
  end.

(** A facade over the empty small state, with three integers of the caller
    in the heap: 100 in cell 0, 40 in cell 1 and 0 in cell 2. *)
Definition fresh_world : world memstate.t :=
  mk_world (New memstate.empty) [100; 40; 0] [].

(** The same once address 7 has been given 100. *)
Definition funded_world : world memstate.t :=
  world_after (AddBalance 7%N 0%nat) fresh_world.

(** ** cmd/thor: the consent loop and the pack loop *)

Module client.

(** What the loops read of a block: its header (id and number) and its
    size. *)
Record Header := mk_Header {
  ID : Hash;
  Number : Z
}.

Record Block := mk_Block {
  header : Header;
  Size : Z
}.

#[global] Instance Header_eq_dec : EqDecision Header.
Proof. solve_decision. Defined.
#[global] Instance Block_eq_dec : EqDecision Block.
Proof. solve_decision. Defined.

(** A Go [error] that is not nil. *)
Inductive error :=
  | errNotFound
  | errGasLimitReached
  | errOther (code : Z).

(** Modelled from the spec: [chain.IsNotFound] and
    [packer.IsGasLimitReached], the error classifiers of packages that are
    not among the sources; a nil error is in neither class. *)
Definition IsNotFound (err : option error) : bool :=
  match err with Some errNotFound => true | _ => false end.
Definition IsGasLimitReached (err : option error) : bool :=
  match err with Some errGasLimitReached => true | _ => false end.

(** Modelled from the spec: the chain store of package [chain], which is
    not among the sources: "append-only collection of blocks keyed by id,
    with a designated best block pointer", "at most one block per id". *)
Record Chain := mk_Chain {
  blocks : gmap Hash (Block * bool);
  best : option Block
}.

(** Modelled from the spec: "lookup by header id (returning a NotFound
    sentinel for absence)". *)
Definition GetBlockHeader (ch : Chain) (id : Hash) : option Header * option error :=
  match blocks ch !! id with
  | Some (blk, _) => (Some (header blk), None)
  | None => (None, Some errNotFound)
  end.

(** Modelled from the spec: "adding a block with an explicit on_trunk
    flag"; a trunk block becomes the best block. *)
Definition AddBlock (ch : Chain) (blk : Block) (trunk : bool) : Chain :=
  mk_Chain (<[ID (header blk) := (blk, trunk)]> (blocks ch))
           (if trunk then Some blk else best ch).

(** Modelled from the spec: "reading the current best block". *)
Definition GetBestBlock (ch : Chain) : option Block * option error :=
  match best ch with
  | Some blk => (Some blk, None)
  | None => (None, Some errNotFound)
  end.

(** What a log line is about. *)
Inductive message :=
  | received_trunk (blk : Block)
  | received_branch (blk : Block)
  | received_bad (blk : Block) (err : error)
  | waiting_to_propose (number : Z) (waitSec : Z)
  | proposed (blk : Block).

(** What an iteration of a loop does to the outside, in order. *)
Inductive effect :=
  | call_GetBlockHeader (id : Hash)
  | call_Consent (blk : Block) (now : Z)
  | call_IsTrunk (h : Header)
  | call_AddBlock (blk : Block) (trunk : bool)
  | call_BroadcastBlock (blk : Block)
  | log_Info (m : message)
  | log_Warn (m : message)
  | send_bestBlockUpdate
  | send_newBlockAck
  | call_GetBestBlock
  | call_Prepare (parent : Header) (now : Z)
  | call_adopt {Tx : Type} (tx : Tx) (err : option error)
  | call_commit
  | send_newBlockPacked (blk : Block)
  | recv_newBlockAck.

(** The branch of the [select] of [consent] that fired. *)
Inductive consent_case :=
  | from_blockCh (blk : Block)
  | from_newBlockPacked (blk : Block)
  | consent_ctx_Done.

(** The branch of the [select] of [pack] that fired. *)
Inductive pack_case :=
  | from_waitTime
  | from_bestBlockUpdate
  | pack_ctx_Done.

(** How many values a run of effects sends on [newBlockAck]. *)
Definition is_ack (e : effect) : bool :=
  match e with send_newBlockAck => true | _ => false end.
Definition acks_sent (es : list effect) : nat :=
  length (filter (fun e => is_ack e = true) es).

(** How many times a run of effects adds a block of id [id] to the chain. *)
Definition is_add (id : Hash) (e : effect) : bool :=
  match e with
  | call_AddBlock blk _ => bool_decide (ID (header blk) = id)
  | _ => false
  end.
Definition adds_of (id : Hash) (es : list effect) : nat :=
  length (filter (fun e => is_add id e = true) es).

(** What fired is not the locally packed block of id [id]. *)
Definition not_packed (id : Hash) (c : consent_case) : Prop :=
  match c with
  | from_newBlockPacked blk => ID (header blk) <> id
  | _ => True
  end.

Section Loops.
(** The consenter of package [consensus], taken as a parameter: what
    [Consent] and [IsTrunk] answer may depend on the chain they look at. *)
Variable Consent : Chain -> Block -> Z -> bool * option error.
Variable IsTrunk : Chain -> Header -> bool * option error.

(** [consent]: one round of the consent loop.  [now] is what [time.Now]
    reads and [parked] tells whether the pack loop is waiting on
    [bestBlockUpdate], which decides the non-blocking send. *)
Definition consent (fired : consent_case) (now : Z) (parked : bool) (ch : Chain)
    : Chain * list effect :=
  match fired with
  | from_blockCh blk =>
      let id := ID (header blk) in
      let err := (GetBlockHeader ch id).2 in
      if negb (IsNotFound err) then (ch, [call_GetBlockHeader id])
      else
        let r := Consent ch blk now in
        let trunk := r.1 in
        match r.2 with
        | None =>
            (AddBlock ch blk trunk,
             [call_GetBlockHeader id; call_Consent blk now; call_AddBlock blk trunk] ++
             (if trunk then
                [log_Info (received_trunk blk); call_BroadcastBlock blk] ++
                (if parked then [send_bestBlockUpdate] else [])
              else [log_Info (received_branch blk)]))
        | Some err =>
            (ch, [call_GetBlockHeader id; call_Consent blk now;
                  log_Warn (received_bad blk err)])
        end
  | from_newBlockPacked blk =>
      let r := IsTrunk ch (header blk) in
      let trunk := r.1 in
      match r.2 with
      | None =>
          (AddBlock ch blk trunk,
           [call_IsTrunk (header blk); call_AddBlock blk trunk] ++
           (if trunk then [call_BroadcastBlock blk] else []) ++
           [send_newBlockAck])
      | Some _ => (ch, [call_IsTrunk (header blk)])
      end
  | consent_ctx_Done => (ch, [])
  end.

(** What one round of the loop is given. *)
Record round := mk_round {
  fired : consent_case;
  now : Z;
  parked : bool
}.

(** The rounds of the consent loop of [action], one after the other. *)
Fixpoint consent_rounds (rs : list round) (ch : Chain) : Chain * list effect :=
  match rs with
  | [] => (ch, [])
  | r :: rs' =>
      let c := consent (fired r) (now r) (parked r) ch in
      let c' := consent_rounds rs' c.1 in
      (c'.1, c.2 ++ c'.2)
  end.

End Loops.

Section Pack.
(** The packer of package [packer] and the transactions of package
    [txpool], taken as parameters: [P] is the block under construction that
    the closures [adopt] and [commit] of a preparation share. *)
Context {Tx P PrivateKey : Type}.
Variable Prepare : Header -> Z -> (Z * P) + error.
Variable adopt : P -> Tx -> P * option error.
Variable commit : P -> PrivateKey -> Block * option error.

(** The loop [for txIter.HasNext() { err := adopt(txIter.Next()); ... }];
    the iterator is the list of the transactions it has yet to hand out. *)
Fixpoint adopt_loop (txIter : list Tx) (p : P)
    : list Tx * P * list (Tx * option error) :=
  match txIter with
  | [] => ([], p, [])
  | tx :: txIter' =>
      let r := adopt p tx in
      if IsGasLimitReached r.2 then (txIter', r.1, [(tx, r.2)])
      else
        let l := adopt_loop txIter' r.1 in
        (l.1.1, l.1.2, (tx, r.2) :: l.2)
  end.

(** [uint64] and [uint32] arithmetic wraps around. *)
Definition u64 (z : Z) : Z := z mod 2 ^ 64.
Definition u32 (z : Z) : Z := z mod 2 ^ 32.

(** [pack]: one attempt of the pack loop; it returns what is left of the
    iterator and what it did. *)
Definition pack (ch : Chain) (txIter : list Tx) (privateKey : PrivateKey)
    (now : Z) (fired : pack_case) : list Tx * list effect :=
  match GetBestBlock ch with
  | (Some bestBlock, None) =>
      match Prepare (header bestBlock) now with
      | inl (ts, p) =>
          let waitSec := u64 (ts - now) in
          let before :=
            [call_GetBestBlock; call_Prepare (header bestBlock) now;
             log_Info (waiting_to_propose (u32 (Number (header bestBlock) + 1)) waitSec)] in
          match fired with
          | from_waitTime =>
              let l := adopt_loop txIter p in
              let adopted := map (fun c => call_adopt c.1 c.2) l.2 in
              let c := commit l.1.2 privateKey in
              match c.2 with
              | None =>
                  (l.1.1, before ++ adopted ++
                          [call_commit; log_Info (proposed c.1);
                           send_newBlockPacked c.1; recv_newBlockAck])
              | Some _ => (l.1.1, before ++ adopted ++ [call_commit])
              end
          | from_bestBlockUpdate => (txIter, before)
          | pack_ctx_Done => (txIter, before)
          end
      | inr _ => (txIter, [call_GetBestBlock; call_Prepare (header bestBlock) now])
      end
  | _ => (txIter, [call_GetBestBlock])
  end.

(** The spec's words for the adoption of transactions: "While the
    transaction iterator has next, call adopt(tx). If the error is
    GasLimitReached, stop adopting; other errors are ignored and the
    transaction is skipped."  [adoption p txs log rest p'] reads: from the
    block [p] and the iterator [txs], the calls [log] are made, leaving
    [rest] in the iterator and the block [p']. *)
Inductive adoption : P -> list Tx -> list (Tx * option error) -> list Tx -> P -> Prop :=
  | adoption_exhausted p : adoption p [] [] [] p
  | adoption_stopped p tx txs p' err :
      adopt p tx = (p', err) ->
      IsGasLimitReached err = true ->
      adoption p (tx :: txs) [(tx, err)] txs p'
  | adoption_continued p tx txs p' err log rest p'' :
      adopt p tx = (p', err) ->
      IsGasLimitReached err = false ->
      adoption p' txs log rest p'' ->
      adoption p (tx :: txs) ((tx, err) :: log) rest p''.

End Pack.

(** A consenter to run the loops on concrete inputs: it takes a block
    numbered at most [now] onto the trunk and turns down any other; a packed
    block is on the trunk when its number is even, and [IsTrunk] fails on
    number 13. *)
Definition sample_Consent (ch : Chain) (blk : Block) (now : Z) : bool * option error :=
  if decide (Number (header blk) <= now) then (true, None)
  else (false, Some (errOther 1)).
Definition sample_IsTrunk (ch : Chain) (h : Header) : bool * option error :=
  if decide (Number h = 13) then (false, Some (errOther 2))
  else (Z.even (Number h), None).

(** A packer to run the adoption loop on concrete inputs: the block under
    construction is the gas it has left and a transaction is the gas it
    asks for; one asking for more than is left meets the gas limit, one
    asking for nothing is turned down for another reason. *)
Definition sample_adopt (gas : Z) (tx : Z) : Z * option error :=
  if decide (tx <= 0) then (gas, Some (errOther 3))
  else if decide (gas < tx) then (gas, Some errGasLimitReached)
  else (gas - tx, None).

Definition empty_Chain : Chain := mk_Chain ∅ None.
Definition block_5 : Block := mk_Block (mk_Header 55%N 5) 1024.
Definition block_13 : Block := mk_Block (mk_Header 77%N 13) 2048.

End client.

(** ** cmd/thor: the keys the node starts with *)

Module startup.

(** A Go [error] of the operating system or of the key codec, and
    [os.IsNotExist]. *)
Inductive oserror :=
  | errNotExist
  | errFailed (code : Z).

Definition IsNotExist (err : oserror) : bool :=
  match err with errNotExist => true | errFailed _ => false end.

(** What [homeDir] reads of the process: the HOME variable (empty when
    unset), what [user.Current] returns (the user's [HomeDir], or an
    error) and what [os.Getwd] returns. *)
Record process := mk_process {
  HOME : string;
  user_Current : string + oserror;
  Getwd : string * option oserror
}.

Definition homeDir (pr : process) : string * option oserror :=
  if decide (HOME pr <> EmptyString) then (HOME pr, None)
  else
    match user_Current pr with
    | inr err => (EmptyString, Some err)
    | inl HomeDir =>
        if decide (HomeDir <> EmptyString) then (HomeDir, None)
        else Getwd pr
    end.

Section Keys.
(** [filepath.Join], [filepath.IsAbs] and [filepath.Abs]. *)
Variable Join : string -> string -> string.
Variable IsAbs : string -> bool.
Variable Abs : string -> string * option oserror.

(** A private key, and the files of the machine as [crypto.LoadECDSA]
    meets them: a path names no file, a file holding a key, or a file it
    cannot read a key from.  [writable] tells where [crypto.SaveECDSA] can
    write. *)
Context {PrivateKey : Type}.
Variable writable : string -> bool.

Definition LoadECDSA (files : gmap string (option PrivateKey)) (file : string)
    : option PrivateKey * option oserror :=
  match files !! file with
  | None => (None, Some errNotExist)
  | Some None => (None, Some (errFailed 1))
  | Some (Some key) => (Some key, None)
  end.

Definition SaveECDSA (files : gmap string (option PrivateKey)) (file : string)
    (key : PrivateKey) : gmap string (option PrivateKey) * option oserror :=
  if writable file then (<[file := Some key]> files, None)
  else (files, Some (errFailed 2)).

(** [loadNodeKey]: [nodekey] is the value of the flag, [generated] what
    [crypto.GenerateKey] returns when asked; the result is the key, the
    error and the files left behind. *)
Definition loadNodeKey (nodekey : string) (pr : process)
    (generated : PrivateKey * option oserror)
    (files : gmap string (option PrivateKey))
    : option PrivateKey * option oserror * gmap string (option PrivateKey) :=
  let located : string * option oserror :=
    if decide (nodekey = EmptyString) then
      let h := homeDir pr in
      match h.2 with
      | Some err => (EmptyString, Some err)
      | None => (Join h.1 ".thor-node.key", None)
      end
    else if negb (IsAbs nodekey) then Abs nodekey
    else (nodekey, None) in
  match located.2 with
  | Some err => (None, Some err, files)
  | None =>
      let keyFile := located.1 in
      let loaded := LoadECDSA files keyFile in
      match loaded.2 with
      | None => (loaded.1, None, files)
      | Some err =>
          if negb (IsNotExist err) then (None, Some err, files)
          else
            match generated.2 with
            | Some err' => (None, Some err', files)
            | None =>
                let saved := SaveECDSA files keyFile generated.1 in
                match saved.2 with
                | Some err'' => (None, Some err'', saved.1)
                | None => (Some generated.1, None, saved.1)
                end
            end
      end
  end.

(** [crypto.HexToECDSA] and the address of a key,
    [crypto.PubkeyToAddress(key.PublicKey)]. *)
Variable HexToECDSA : string -> PrivateKey + oserror.
Variable PubkeyToAddress : PrivateKey -> Address.

(** What [loadAccount] returns: an address and a key, an error, or the
    panic of [rand.Intn] on a length that is not positive. *)
Inductive account_result :=
  | account (addr : Address) (key : PrivateKey)
  | account_error (err : oserror)
  | account_panic.

(** [loadAccount]: [keyString] is the value of the flag, [Accounts] the
    development accounts of the genesis and [draw] the random number
    [rand.Intn] reduces to an index below their count. *)
Definition loadAccount (keyString : string) (Accounts : list (Address * PrivateKey))
    (draw : nat) : account_result :=
  if decide (keyString <> EmptyString) then
    match HexToECDSA keyString with
    | inr err => account_error err
    | inl key => account (PubkeyToAddress key) key
    end
  else
    if decide (length Accounts = 0%nat) then account_panic
    else
      match Accounts !! (draw mod length Accounts)%nat with
      | Some a => account a.1 a.2
      | None => account_panic
      end.

End Keys.

End startup.

(** ** Further vocabulary for the properties *)

(** The reading methods of the facade; the two enumerations run with the
    callback that keeps everything. *)
Inductive query :=
  | qGetBalance (addr : Address)
  | qGetNonce (addr : Address)
  | qGetCodeHash (addr : Address)
  | qGetCode (addr : Address)
  | qGetCodeSize (addr : Address)
  | qHasSuicided (addr : Address)
  | qGetState (addr : Address) (k : Hash)
  | qExist (addr : Address)
  | qEmpty (addr : Address)
  | qGetRefund
  | qGetLogs
  | qGetPreimages.

Definition ask {S} `{!State S} (q : query) : M S unit :=
  match q with
  | qGetBalance addr => GetBalance addr;; ret tt
  | qGetNonce addr => GetNonce addr;; ret tt
  | qGetCodeHash addr => GetCodeHash addr;; ret tt
  | qGetCode addr => GetCode addr;; ret tt
  | qGetCodeSize addr => GetCodeSize addr;; ret tt
  | qHasSuicided addr => HasSuicided addr;; ret tt
  | qGetState addr k => GetState addr k;; ret tt
  | qExist addr => Exist addr;; ret tt
  | qEmpty addr => Empty addr;; ret tt
  | qGetRefund => GetRefund;; ret tt
  | qGetLogs => GetLogs (@collect Log) [];; ret tt
  | qGetPreimages => GetPreimages (fun h b => collect (h, b)) [];; ret tt
  end.

(** How many snapshots a run of mutations takes. *)
Definition is_snapshot (m : mutation) : bool :=
  match m with mSnapshot => true | _ => false end.
Definition snapshots (ms : list mutation) : Z :=
  Z.of_nat (length (filter (fun m => is_snapshot m = true) ms)).

(** The chain a run of effects leaves when nothing but its [AddBlock]
    calls touches the chain. *)
Definition replay (ch : client.Chain) (es : list client.effect) : client.Chain :=
  fold_left
    (fun c e =>
       match e with
       | client.call_AddBlock blk trunk => client.AddBlock c blk trunk
       | _ => c
       end) es ch.

(** The blocks a run of effects broadcasts, those it adds on the trunk,
    and how often it signals on [bestBlockUpdate]. *)
Definition broadcasts (es : list client.effect) : list client.Block :=
  omap (fun e => match e with client.call_BroadcastBlock b => Some b | _ => None end) es.
Definition trunk_adds (es : list client.effect) : list client.Block :=
  omap (fun e => match e with client.call_AddBlock b true => Some b | _ => None end) es.
Definition signals (es : list client.effect) : nat :=
  length (omap (fun e => match e with client.send_bestBlockUpdate => Some tt | _ => None end) es).


(** The effects of assembling a block: adopting, committing and handing
    over. *)
Definition is_assembly (e : client.effect) : bool :=
  match e with
  | client.call_adopt _ _ | client.call_commit
  | client.send_newBlockPacked _ | client.recv_newBlockAck => true
  | _ => false
  end.

(** * Properties *)

(** ** Running the monad *)

Lemma bind_Ok {S A B} (m : M S A) (f : A -> M S B) w a w' :
  m w = Ok a w' -> bind m f w = f a w'.
Proof. unfold bind. intros ->. reflexivity. Qed.

Lemma bind_inv {S A B} (m : M S A) (f : A -> M S B) w b w'' :
  bind m f w = Ok b w'' -> exists a w', m w = Ok a w' /\ f a w' = Ok b w''.
Proof.
  unfold bind. destruct (m w) as [a w'|e]; [eauto | discriminate].
Qed.

Lemma lookup_snoc {A} (l : list A) (x : A) : (l ++ [x]) !! length l = Some x.
Proof. rewrite lookup_app_r by lia. rewrite Nat.sub_diag. reflexivity. Qed.

Lemma lookup_snoc_old {A} (l : list A) (x y : A) (i : nat) :
  l !! i = Some y -> (l ++ [x]) !! i = Some y.
Proof. intros H. rewrite lookup_app_l; [exact H | eapply lookup_lt_Some; eauto]. Qed.

Lemma world_eta {S} (w : world S) :
  mk_world (mk_StateDB (state (db w)) (repo (db w))) (heap w) (calls w) = w.
Proof. destruct w as [[? ?] ? ?]. reflexivity. Qed.

Ltac run :=
  repeat (unfold AddBalance, SubBalance, sign_is_zero, new_big_Add, new_big_Sub,
            s_state_GetBalance, s_state_SetBalance, s_state_GetCode,
            s_state_GetCodeHash, s_state_SetCode, s_state_GetStorage,
            s_state_SetStorage, s_state_Exists, s_state_Delete,
            s_state_NewCheckpoint, s_state_Revert, s_repo_Get, s_repo_Put,
            s_repo_Push, s_repo_Depth, s_repo_PopTo, s_repo_Journal, getter,
            record, read_state, write_state, read_repo, write_repo, new_big,
            big_val, as_big, as_bool, throw, bind, ret; simpl).

Ltac run_in H :=
  repeat (unfold AddBalance, SubBalance, sign_is_zero, new_big_Add, new_big_Sub,
            s_state_GetBalance, s_state_SetBalance, s_state_GetCode,
            s_state_GetCodeHash, s_state_SetCode, s_state_GetStorage,
            s_state_SetStorage, s_state_Exists, s_state_Delete,
            s_state_NewCheckpoint, s_state_Revert, s_repo_Get, s_repo_Put,
            s_repo_Push, s_repo_Depth, s_repo_PopTo, s_repo_Journal, getter,
            record, read_state, write_state, read_repo, write_repo, new_big,
            big_val, as_big, as_bool, throw, bind, ret in H; simpl in H).

Section Balance.
Context {S : Type} `{!State S}.

(** C6. [AddBalance(a, 0)] and [SubBalance(a, 0)] leave the whole world as
    it is, the log of calls included: the underlying state is neither read
    nor written.  With a nonzero amount [z] each makes exactly the calls
    [GetBalance(a)] then [SetBalance(a, old + z)], respectively
    [SetBalance(a, old - z)], whatever the sign of the difference. *)
Theorem balance_zero_noop_else_read_modify_write
    (w : world S) (a : Address) (amount : ptr) (z : Z) :
  heap w !! amount = Some z ->
  let old := state_GetBalance (state (db w)) a in
  let stored v :=
    mk_world (mk_StateDB (state_SetBalance (state (db w)) a v) (repo (db w)))
             (heap w ++ [old] ++ [v])
             (calls w ++ [CGetBalance a] ++ [CSetBalance a v]) in
  (z = 0 -> AddBalance a amount w = Ok tt w /\ SubBalance a amount w = Ok tt w) /\
  (z <> 0 ->
     AddBalance a amount w = Ok tt (stored (old + z)) /\
     SubBalance a amount w = Ok tt (stored (old - z))).
Proof.
  intros Hz old stored. split.
  - intros ->. run. rewrite Hz. simpl. auto.
  - intros Hnz. subst stored old.
    assert (Hs : bool_decide (Z.sgn z = 0) = false)
      by (apply bool_decide_eq_false_2; lia).
    split; run; rewrite Hz; simpl; rewrite Hs; simpl;
      rewrite lookup_snoc; simpl;
      rewrite (lookup_snoc_old _ _ _ _ Hz); simpl;
      rewrite lookup_snoc; simpl;
      rewrite <- !app_assoc; reflexivity.
Qed.

End Balance.

(** ** The journal *)

Section Journal.
Context {K V : Type}.
Variable same : K -> K -> bool.
Implicit Types (k : K) (v : V) (f : stackedmap.frame K V)
  (sm : stackedmap.StackedMap K V).

Lemma frame_lookup_put f k v :
  same k k = true ->
  stackedmap.frame_lookup same k (stackedmap.frame_put same k v f) = Some v.
Proof.
  intros Hk. induction f as [|[k' v'] f IH]; simpl.
  - rewrite Hk. reflexivity.
  - destruct (same k k') eqn:E; simpl; rewrite E; [reflexivity | exact IH].
Qed.

(** A read after a write finds the value written. *)
Lemma lookup_Put sm k v :
  same k k = true ->
  stackedmap.lookup same (stackedmap.Put same sm k v) k = Some v.
Proof.
  intros Hk. unfold stackedmap.lookup, stackedmap.Put.
  destruct (stackedmap.frames sm) as [|f fs]; simpl.
  - apply frame_lookup_put, Hk.
  - rewrite frame_lookup_put by exact Hk. reflexivity.
Qed.

(** A write goes to the topmost frame: the depth and the frames under the
    topmost one stay. *)
Lemma Put_below sm k v :
  stackedmap.Depth (stackedmap.Put same sm k v) = stackedmap.Depth sm /\
  tail (stackedmap.frames (stackedmap.Put same sm k v)) = tail (stackedmap.frames sm) /\
  (stackedmap.frames sm <> [] ->
   stackedmap.base (stackedmap.Put same sm k v) = stackedmap.base sm).
Proof.
  unfold stackedmap.Depth, stackedmap.Put.
  destruct (stackedmap.frames sm) as [|f fs]; simpl; auto.
  repeat split; auto. intros []; reflexivity.
Qed.

End Journal.

Lemma same_key_refl (k : key) : k <> logKey -> same_key k k = true.
Proof.
  intros Hk. destruct k; unfold same_key;
    first [apply bool_decide_eq_true_2; reflexivity | congruence].
Qed.

(** ** Suicide *)

Section Suicide.
Context {S : Type} `{!State S}.

(** C4. On an address that does not exist [Suicide] returns false after the
    single call [Exists]: the state, the journal and the heap are as they
    were.  On an address that exists it deletes the account, writes the
    flag [true] under the address's suicide key in the journal and returns
    true, after which [HasSuicided] answers true. *)
Theorem Suicide_missing_untouched_existing_deleted_and_flagged
    (w : world S) (a : Address) :
  let s := state (db w) in
  let flagged :=
    mk_world
      (mk_StateDB (state_Delete s a)
         (stackedmap.Put same_key (repo (db w)) (suicideFlagKey a) (VBool true)))
      (heap w)
      (calls w ++ [CExists a] ++ [CDelete a] ++
                  [CPut (suicideFlagKey a) (VBool true)]) in
  (state_Exists s a = false ->
     Suicide a w = Ok false (mk_world (db w) (heap w) (calls w ++ [CExists a]))) /\
  (state_Exists s a = true ->
     Suicide a w = Ok true flagged /\
     observe (HasSuicided a) flagged = Some true).
Proof.
  intros s flagged. subst s flagged. split; intros He.
  - unfold Suicide. run. rewrite He. reflexivity.
  - split.
    + unfold Suicide. run. rewrite He. simpl.
      rewrite <- !app_assoc. reflexivity.
    + unfold observe, HasSuicided. run.
      rewrite lookup_Put by (apply same_key_refl; discriminate). reflexivity.
Qed.

End Suicide.

(** ** RevertToSnapshot *)

Section Revert.
Context {S : Type} `{!State S}.

Lemma s_repo_Depth_eq (w : world S) :
  s_repo_Depth w =
  Ok (stackedmap.Depth (repo (db w))) (mk_world (db w) (heap w) (calls w ++ [CDepth])).
Proof. reflexivity. Qed.

Lemma times_Revert (n : nat) (w : world S) :
  times n s_state_Revert w =
  Ok tt (mk_world
           (mk_StateDB (Nat.iter n state_Revert (state (db w))) (repo (db w)))
           (heap w) (calls w ++ repeat CRevert n)).
Proof.
  revert w. induction n as [|n IH]; intros w; simpl.
  - rewrite app_nil_r. unfold ret. rewrite world_eta. reflexivity.
  - unfold bind at 1. unfold s_state_Revert at 1. run.
    rewrite IH. simpl. rewrite <- app_assoc. simpl.
    rewrite <- Nat.iter_succ_r. reflexivity.
Qed.

Lemma RevertToSnapshot_in_range (w : world S) (rev : Z) :
  let d := stackedmap.Depth (repo (db w)) in
  let n := Z.to_nat (d - rev) in
  0 <= rev <= d ->
  RevertToSnapshot rev w =
  Ok tt (mk_world
           (mk_StateDB (Nat.iter n state_Revert (state (db w)))
              (stackedmap.mk (stackedmap.base (repo (db w)))
                 (drop n (stackedmap.frames (repo (db w))))))
           (heap w)
           (calls w ++ [CDepth] ++ [CDepth] ++ repeat CRevert n ++ [CPopTo rev])).
Proof.
  intros d n [H0 Hd]. unfold RevertToSnapshot, invalid_revision.
  rewrite decide_False by lia.
  erewrite bind_Ok; cycle 1.
  { erewrite bind_Ok by apply s_repo_Depth_eq.
    unfold ret. fold d. rewrite bool_decide_eq_false_2 by lia. reflexivity. }
  cbv beta iota.
  erewrite bind_Ok by apply s_repo_Depth_eq.
  simpl. fold d n.
  erewrite bind_Ok by apply times_Revert.
  unfold s_repo_PopTo. run. unfold stackedmap.PopTo. simpl. fold d.
  rewrite decide_False by lia. simpl. fold n.
  rewrite <- !app_assoc. reflexivity.
Qed.

Lemma RevertToSnapshot_out_of_range (w : world S) (rev : Z) :
  let d := stackedmap.Depth (repo (db w)) in
  rev < 0 \/ rev > d ->
  exists d', RevertToSnapshot rev w = Panic (InvalidRevision rev d').
Proof.
  intros d Hbad. unfold RevertToSnapshot, invalid_revision.
  destruct (decide (rev < 0)) as [Hneg|Hpos].
  - run. eauto.
  - erewrite bind_Ok; cycle 1.
    { erewrite bind_Ok by apply s_repo_Depth_eq.
      unfold ret. fold d. rewrite bool_decide_eq_true_2 by lia. reflexivity. }
    cbv beta iota. run. eauto.
Qed.

(** C3. [RevertToSnapshot(rev)] panics exactly when [rev < 0] or
    [rev > depth].  Otherwise it returns after the calls [Depth], [Depth],
    then [depth - rev] times [Revert] on the underlying state, then
    [PopTo(rev)] on the journal, in that order: the state has been reverted
    [depth - rev] times and the journal has lost its [depth - rev] topmost
    frames. *)
Theorem RevertToSnapshot_panics_iff_out_of_range_else_reverts_then_pops
    (w : world S) (rev : Z) :
  let d := stackedmap.Depth (repo (db w)) in
  let n := Z.to_nat (d - rev) in
  ((exists e, RevertToSnapshot rev w = Panic e) <-> (rev < 0 \/ rev > d)) /\
  (0 <= rev <= d ->
     RevertToSnapshot rev w =
     Ok tt (mk_world
              (mk_StateDB (Nat.iter n state_Revert (state (db w)))
                 (stackedmap.mk (stackedmap.base (repo (db w)))
                    (drop n (stackedmap.frames (repo (db w))))))
              (heap w)
              (calls w ++ [CDepth] ++ [CDepth] ++ repeat CRevert n ++ [CPopTo rev]))).
Proof.
  intros d n. split; [split|apply RevertToSnapshot_in_range].
  - intros [e He].
    destruct (decide (rev < 0 \/ rev > d)) as [?|Hn]; [assumption|].
    rewrite RevertToSnapshot_in_range in He by (fold d; lia). discriminate.
  - intros Hbad. destruct (RevertToSnapshot_out_of_range w rev Hbad) as [d' Hd'].
    eauto.
Qed.

End Revert.

(** ** Refund *)

Section Refund.
Context {S : Type} `{!State S}.

Lemma observe_big_GetRefund (w : world S) :
  observe_big GetRefund w =
  match stackedmap.lookup same_key (repo (db w)) refundKey with
  | Some (VBigInt p) => heap w !! p
  | Some _ => None
  | None => Some 0
  end.
Proof.
  unfold observe_big, GetRefund. run.
  destruct (stackedmap.lookup same_key (repo (db w)) refundKey) as [[]|]; simpl; try reflexivity.
  apply lookup_snoc.
Qed.

(** C9. [GetRefund] returns the total bound to the refund key in the
    topmost frame that has one, and a zero when no frame has one.
    [AddRefund(gas)] allocates a cell holding the old total plus [gas] and
    binds the refund key to it in the topmost frame: every cell allocated
    before keeps its integer, and the frames under the topmost one are as
    they were, so the totals they hold are unchanged. *)
Theorem AddRefund_stores_fresh_total_and_mutates_no_cell (w : world S) :
  observe_big GetRefund w =
    match stackedmap.lookup same_key (repo (db w)) refundKey with
    | Some (VBigInt p) => heap w !! p
    | Some _ => None
    | None => Some 0
    end /\
  forall (gas : ptr) (g t : Z),
    heap w !! gas = Some g ->
    observe_big GetRefund w = Some t ->
    exists (w' : world S) (total : ptr),
      AddRefund gas w = Ok tt w' /\
      (length (heap w) <= total)%nat /\
      heap w' !! total = Some (t + g) /\
      (forall p z, heap w !! p = Some z -> heap w' !! p = Some z) /\
      repo (db w') = stackedmap.Put same_key (repo (db w)) refundKey (VBigInt total) /\
      tail (stackedmap.frames (repo (db w'))) = tail (stackedmap.frames (repo (db w))) /\
      (stackedmap.frames (repo (db w)) <> [] ->
       stackedmap.base (repo (db w')) = stackedmap.base (repo (db w))) /\
      state (db w') = state (db w) /\
      observe_big GetRefund w' = Some (t + g).
Proof.
  split; [apply observe_big_GetRefund|].
  intros gas g t Hg Ht. rewrite observe_big_GetRefund in Ht.
  destruct (stackedmap.lookup same_key (repo (db w)) refundKey) as [v|] eqn:El.
  - destruct v as [|p| | |]; try discriminate.
    eexists _, (length (heap w)). split.
    { unfold AddRefund. run. rewrite El. simpl. rewrite Ht. simpl. rewrite Hg. simpl. reflexivity. }
    simpl. pose proof (Put_below same_key (repo (db w)) refundKey (VBigInt (length (heap w))))
      as (_ & Htl & Hb).
    repeat split; auto.
    + apply lookup_snoc.
    + intros p0 z Hp. apply lookup_snoc_old, Hp.
    + rewrite observe_big_GetRefund. simpl. rewrite lookup_Put by (apply same_key_refl; discriminate). apply lookup_snoc.
  - injection Ht as <-.
    eexists _, (Datatypes.S (length (heap w))). split.
    { unfold AddRefund. run. rewrite El. simpl. rewrite lookup_snoc. simpl.
      rewrite (lookup_snoc_old _ _ _ _ Hg). simpl. reflexivity. }
    simpl.
    pose proof (Put_below same_key (repo (db w)) refundKey
                  (VBigInt (length (heap w ++ [0])))) as (_ & Htl & Hb).
    assert (Hlen : length (heap w ++ [0]) = Datatypes.S (length (heap w)))
      by (rewrite length_app; simpl; lia).
    rewrite Hlen in *.
    repeat split; auto.
    + rewrite <- Hlen. apply lookup_snoc.
    + intros p0 z Hp. apply lookup_snoc_old, lookup_snoc_old, Hp.
    + rewrite observe_big_GetRefund. simpl. rewrite lookup_Put by (apply same_key_refl; discriminate).
      rewrite <- Hlen. apply lookup_snoc.
Qed.

End Refund.

(** ** GetPreimages and GetLogs *)

Section Visitors.
Context {S : Type} `{!State S} {T : Type}.
Variable cbp : Hash -> bytes -> T -> bool * T.
Variable cbl : Log -> T -> bool * T.

Lemma preimage_visitor_other k v t :
  is_preimageKey k = false -> preimage_visitor cbp k v t = Some (true, t).
Proof. destruct k; simpl; intros; (discriminate || reflexivity). Qed.

Lemma log_visitor_other k v t :
  is_logKey k = false -> log_visitor cbl k v t = Some (true, t).
Proof. destruct k; simpl; intros; (discriminate || reflexivity). Qed.

(** A visitor that passes over the entries outside [mine] visits the list
    as it visits the entries of [mine] alone. *)
Lemma visit_all_filter (mine : key -> bool)
    (visit : key -> value -> T -> option (bool * T)) :
  (forall k v t, mine k = false -> visit k v t = Some (true, t)) ->
  forall es t,
    stackedmap.visit_all visit es t =
    stackedmap.visit_all visit (filter (fun e => mine e.1 = true) es) t.
Proof.
  intros Hskip es. induction es as [|[k v] es IH]; intros t; [reflexivity|].
  rewrite filter_cons. simpl. destruct (mine k) eqn:Ek.
  - rewrite decide_True by reflexivity. simpl.
    destruct (visit k v t) as [[[] t']|]; auto.
  - rewrite decide_False by discriminate.
    rewrite (Hskip k v t Ek). apply IH.
Qed.

(** C10. On an entry whose key is not a preimage key the visitor of
    [GetPreimages] answers true with the callback's state untouched,
    whatever the callback is; likewise the visitor of [GetLogs] on an entry
    whose key is not the log key.  Hence each enumeration is the one its
    callback would see on the journal's entries of its own key type alone:
    the other entries neither reach the callback nor stop the traversal. *)
Theorem GetPreimages_GetLogs_pass_over_other_keys :
  (forall k v t, is_preimageKey k = false ->
     preimage_visitor cbp k v t = Some (true, t)) /\
  (forall k v t, is_logKey k = false ->
     log_visitor cbl k v t = Some (true, t)) /\
  (forall (w : world S) t,
     observe (GetPreimages cbp t) w =
     stackedmap.visit_all (preimage_visitor cbp)
       (filter (fun e => is_preimageKey e.1 = true) (stackedmap.entries same_key (repo (db w)))) t) /\
  (forall (w : world S) t,
     observe (GetLogs cbl t) w =
     stackedmap.visit_all (log_visitor cbl)
       (filter (fun e => is_logKey e.1 = true) (stackedmap.entries same_key (repo (db w)))) t).
Proof.
  split; [exact preimage_visitor_other|].
  split; [exact log_visitor_other|].
  split; intros w t.
  - rewrite <- visit_all_filter by exact preimage_visitor_other.
    unfold observe, GetPreimages. run. unfold stackedmap.Journal.
    destruct (stackedmap.visit_all _ _ t); reflexivity.
  - rewrite <- visit_all_filter by exact log_visitor_other.
    unfold observe, GetLogs. run. unfold stackedmap.Journal.
    destruct (stackedmap.visit_all _ _ t); reflexivity.
Qed.

End Visitors.

(** ** Snapshot and RevertToSnapshot *)

(** The small state honours the checkpoint contract. *)
#[global] Instance memstate_contract : CheckpointContract memstate.t.
Proof.
  refine {| pending s := memstate.captured (memstate.checkpoints s) |}.
  - intros [acc cs]. reflexivity.
  - reflexivity.
  - reflexivity.
  - reflexivity.
  - reflexivity.
  - intros [acc cs] s0 rest. simpl. unfold memstate.Revert. simpl.
    destruct cs as [|c cs]; simpl; [discriminate|].
    intros [= <- <-]. repeat split.
  - intros [acc cs] s0 rest. simpl. unfold memstate.Revert. simpl.
    destruct cs as [|c cs]; simpl; [discriminate|].
    intros [= <- <-]. reflexivity.
Defined.

Section Snapshot.
Context {S : Type} `{!State S} `{!CheckpointContract S}.

Lemma heap_extends_same (w w' : world S) :
  heap w' = heap w -> heap_extends w w'.
Proof. intros E p z H. rewrite E. exact H. Qed.

Lemma heap_extends_trans (w1 w2 w3 : world S) :
  heap_extends w1 w2 -> heap_extends w2 w3 -> heap_extends w1 w3.
Proof. intros H12 H23 p z H. apply H23, H12, H. Qed.

Lemma heap_extends_app (w w' : world S) l :
  heap w' = heap w ++ l -> heap_extends w w'.
Proof.
  intros E p z H. rewrite E. apply lookup_app_l_Some, H.
Qed.

Ltac invert_run H :=
  run_in H;
  repeat match type of H with
  | context [match ?x with _ => _ end] =>
      lazymatch x with
      | context [match _ with _ => _ end] => fail
      | _ => destruct x eqn:?; simpl in H
      end
  end;
  try discriminate; injection H as <-.

Lemma mutate_touches (m : mutation) (w w' : world S) :
  mutate m w = Ok tt w' -> heap_extends w w' /\ touches w w'.
Proof.
  destruct m; simpl; intros H.
  - unfold AddBalance in H. invert_run H.
    + split; [apply heap_extends_same; reflexivity | apply touches_state; reflexivity].
    + split; [eapply heap_extends_app; simpl; rewrite <- app_assoc; reflexivity|].
      apply touches_state; simpl; [reflexivity | apply pending_SetBalance].
  - unfold SubBalance in H. invert_run H.
    + split; [apply heap_extends_same; reflexivity | apply touches_state; reflexivity].
    + split; [eapply heap_extends_app; simpl; rewrite <- app_assoc; reflexivity|].
      apply touches_state; simpl; [reflexivity | apply pending_SetBalance].
  - unfold SetCode in H. invert_run H.
    split; [apply heap_extends_same; reflexivity | ].
    apply touches_state; simpl; [reflexivity | apply pending_SetCode].
  - unfold SetState in H. invert_run H.
    split; [apply heap_extends_same; reflexivity | ].
    apply touches_state; simpl; [reflexivity | apply pending_SetStorage].
  - unfold AddRefund in H. run_in H.
    destruct (stackedmap.lookup same_key (repo (db w)) refundKey) as [[]|]; simpl in H;
      try discriminate; invert_run H.
    + split; [eapply heap_extends_app; simpl; reflexivity|].
      eapply touches_journal; simpl; reflexivity.
    + split; [eapply heap_extends_app; simpl; rewrite <- app_assoc; reflexivity|].
      eapply touches_journal; simpl; reflexivity.
  - unfold Suicide in H. run_in H.
    destruct (state_Exists (state (db w)) addr); simpl in H; injection H as <-.
    + split; [apply heap_extends_same; reflexivity|].
      eapply touches_journal; simpl; [reflexivity | apply pending_Delete].
    + split; [apply heap_extends_same; reflexivity | apply touches_state; reflexivity].
  - unfold AddLog in H. destruct vmlog; [|discriminate]. invert_run H.
    split; [apply heap_extends_same; reflexivity|].
    eapply touches_journal; simpl; reflexivity.
  - unfold AddPreimage in H. invert_run H.
    split; [apply heap_extends_same; reflexivity|].
    eapply touches_journal; simpl; reflexivity.
  - unfold Snapshot in H. invert_run H.
    split; [apply heap_extends_same; reflexivity|].
    apply touches_snapshot; simpl; [reflexivity | apply pending_NewCheckpoint].
Qed.

Lemma touches_after_snapshot (w0 w w' : world S) :
  after_snapshot w0 w -> heap_extends w w' -> touches w w' -> after_snapshot w0 w'.
Proof.
  intros (newer & pre & Hf & Hlen & Hb & Hp & Hh) Hext Ht.
  destruct newer as [|f newer]; [discriminate|].
  destruct Ht as [Hr Hp' | k v Hr Hp' | Hr Hp'].
  - exists (f :: newer), pre. rewrite Hr, Hp'.
    repeat split; auto. eapply heap_extends_trans; eauto.
  - exists (stackedmap.frame_put same_key k v f :: newer), pre. rewrite Hr, Hp'.
    unfold stackedmap.Put. rewrite Hf. simpl.
    repeat split; auto. eapply heap_extends_trans; eauto.
  - exists ([] :: f :: newer), (state (db w) :: pre). rewrite Hr, Hp'. simpl.
    rewrite Hf, Hp. simpl in *.
    repeat split; auto. eapply heap_extends_trans; eauto.
Qed.

Lemma mutate_all_after_snapshot (ms : list mutation) (w0 w w' : world S) :
  after_snapshot w0 w -> mutate_all ms w = Ok tt w' -> after_snapshot w0 w'.
Proof.
  revert w. induction ms as [|m ms IH]; simpl; intros w Hinv Hrun.
  - injection Hrun as <-. exact Hinv.
  - apply bind_inv in Hrun as ([] & w1 & Hm & Hrest).
    apply mutate_touches in Hm as [Hext Ht].
    eapply IH; [|exact Hrest]. eapply touches_after_snapshot; eauto.
Qed.

(** [Snapshot] opens a checkpoint and a frame, and returns what [Push]
    returns: the depth the journal had before the new frame. *)
Lemma Snapshot_after_snapshot (w0 w1 : world S) (r : Z) :
  Snapshot w0 = Ok r w1 ->
  r = stackedmap.Depth (repo (db w0)) /\ after_snapshot w0 w1.
Proof.
  unfold Snapshot. intros H. run_in H. injection H as <- <-. split.
  - reflexivity.
  - exists [[]], []. simpl. rewrite pending_NewCheckpoint.
    repeat split; auto. apply heap_extends_same. reflexivity.
Qed.

(** Reverting once more than there are checkpoints over the one that
    captured [s0] shows [s0] again. *)
Lemma Revert_to_captured (pre : list S) (s s0 : S) (rest : list S) :
  pending s = pre ++ s0 :: rest ->
  same_view (Nat.iter (Datatypes.S (length pre)) state_Revert s) s0 /\
  pending (Nat.iter (Datatypes.S (length pre)) state_Revert s) = rest.
Proof.
  revert s. induction pre as [|x pre IH]; intros s Hp.
  - simpl in *. split; [eapply view_Revert | eapply pending_Revert]; eauto.
  - simpl length. rewrite Nat.iter_succ_r. apply IH.
    simpl in Hp. eapply pending_Revert; eauto.
Qed.

(** Reverting to the depth the journal had before the snapshot undoes it. *)
Lemma RevertToSnapshot_after_snapshot (w0 w : world S) :
  after_snapshot w0 w ->
  exists w3,
    RevertToSnapshot (stackedmap.Depth (repo (db w0))) w = Ok tt w3 /\
    same_view (state (db w3)) (state (db w0)) /\
    repo (db w3) = repo (db w0) /\
    heap_extends w0 w3.
Proof.
  intros (newer & pre & Hf & Hlen & Hb & Hp & Hh).
  assert (Hd : stackedmap.Depth (repo (db w)) =
               Z.of_nat (length newer) + stackedmap.Depth (repo (db w0))).
  { unfold stackedmap.Depth. rewrite Hf, length_app. lia. }
  assert (Hn : Z.to_nat (stackedmap.Depth (repo (db w)) -
                         stackedmap.Depth (repo (db w0))) = length newer) by lia.
  eexists. split.
  { apply RevertToSnapshot_in_range. unfold stackedmap.Depth in *. lia. }
  rewrite Hn. simpl. rewrite Hf, drop_app_length, Hb, Hlen.
  destruct (Revert_to_captured pre _ _ _ Hp) as [Hv _].
  repeat split; try apply Hv.
  - destruct (repo (db w0)). reflexivity.
  - exact Hh.
Qed.

Lemma observe_big_GetBalance (w : world S) (a : Address) :
  observe_big (GetBalance a) w = Some (state_GetBalance (state (db w)) a).
Proof. unfold observe_big, GetBalance. run. apply lookup_snoc. Qed.

Lemma observe_HasSuicided (w : world S) (a : Address) :
  observe (HasSuicided a) w =
  match stackedmap.lookup same_key (repo (db w)) (suicideFlagKey a) with
  | Some (VBool b) => Some b
  | Some _ => None
  | None => Some false
  end.
Proof.
  unfold observe, HasSuicided. run.
  destruct (stackedmap.lookup same_key (repo (db w)) (suicideFlagKey a)) as [[]|]; reflexivity.
Qed.

Lemma observe_Journal {T} (visit : key -> value -> T -> option (bool * T)) t
    (w : world S) :
  observe (s_repo_Journal visit t) w = stackedmap.Journal same_key (repo (db w)) visit t.
Proof.
  unfold observe. run.
  destruct (stackedmap.Journal same_key (repo (db w)) visit t); reflexivity.
Qed.

(** Two worlds with states that read alike, the same journal and the cells
    of the first kept in the second show the same. *)
Lemma same_observables_intro (w w' : world S) :
  same_view (state (db w')) (state (db w)) ->
  repo (db w') = repo (db w) ->
  heap_extends w w' ->
  same_observables w w'.
Proof.
  intros (Hbal & Hcode & _ & Hsto & Hex) Hr Hh.
  unfold same_observables, all_logs, all_preimages, GetLogs, GetPreimages.
  rewrite !observe_Journal, Hr. repeat split; try reflexivity.
  - intros a. rewrite !observe_big_GetBalance, Hbal. reflexivity.
  - intros a. unfold observe, GetCode. run. rewrite Hcode. reflexivity.
  - intros a k. unfold observe, GetState. run. rewrite Hsto. reflexivity.
  - intros a. unfold observe, Exist. run. rewrite Hex. reflexivity.
  - intros t. rewrite !observe_big_GetRefund, Hr.
    destruct (stackedmap.lookup same_key (repo (db w)) refundKey) as [[]|]; auto.
  - intros a. rewrite !observe_HasSuicided, Hr. reflexivity.
Qed.

(** C2.  Let [Snapshot] return the revision [r].  After any run of
    mutations (balance, code, storage, refund, suicide, logs, preimages),
    and of further snapshots, that does not panic, [RevertToSnapshot(r)]
    does not panic either and restores what the facade showed immediately
    before the snapshot: balances, code, storage, existence, suicide
    flags, logs and preimages, and the refund wherever it could be read
    before; this over any underlying state that honours the checkpoint
    contract. *)
Theorem RevertToSnapshot_of_Snapshot_revision_restores
    (w0 w1 w2 : world S) (r : Z) (ms : list mutation) :
  Snapshot w0 = Ok r w1 ->
  mutate_all ms w1 = Ok tt w2 ->
  r = stackedmap.Depth (repo (db w0)) /\
  exists w3, RevertToSnapshot r w2 = Ok tt w3 /\ same_observables w0 w3.
Proof.
  intros Hs Hm. apply Snapshot_after_snapshot in Hs as [-> Hinv].
  split; [reflexivity|].
  destruct (RevertToSnapshot_after_snapshot w0 w2) as (w3 & Hr & Hv & Hrepo & Hh).
  { eapply mutate_all_after_snapshot; eauto. }
  exists w3. split; [exact Hr|]. apply same_observables_intro; assumption.
Qed.

End Snapshot.

(** C2 at work on the small state, which honours the checkpoint contract:
    the snapshot returns 0, 100 is added to address 7, a second snapshot is
    taken and 40 is subtracted; reverting to revision 0 restores what the
    facade showed at first. *)
Lemma RevertToSnapshot_of_Snapshot_revision_restores_witness :
  let ms := [mAddBalance 7%N 0%nat; mSnapshot; mSubBalance 7%N 1%nat] in
  let w1 := world_after Snapshot fresh_world in
  let w2 := world_after (mutate_all ms) w1 in
  Snapshot fresh_world = Ok 0 w1 /\
  mutate_all ms w1 = Ok tt w2 /\
  observe_big (GetBalance 7%N) w2 = Some 60 /\
  exists w3, RevertToSnapshot 0 w2 = Ok tt w3 /\ same_observables fresh_world w3.
Proof.
  intros ms w1 w2.
  assert (H1 : Snapshot fresh_world = Ok 0 w1) by (vm_compute; reflexivity).
  assert (H2 : mutate_all ms w1 = Ok tt w2) by (vm_compute; reflexivity).
  split; [exact H1|]. split; [exact H2|].
  split; [vm_compute; reflexivity|].
  exact (proj2 (RevertToSnapshot_of_Snapshot_revision_restores
                  fresh_world w1 w2 0 ms H1 H2)).
Defined.

(** The spec's scenario S2: [add_balance(A, 100); snapshot = r;
    sub_balance(A, 40); revert_to_snapshot(r); balance(A)] is 100. *)
Example scenario_S2_balance_restored :
  observe_big (AddBalance 7%N 0%nat;;
               r <- Snapshot;;
               SubBalance 7%N 1%nat;;
               RevertToSnapshot r;;
               GetBalance 7%N) fresh_world = Some 100.
Proof. vm_compute. reflexivity. Qed.

(** The spec's scenario S6: after a snapshot and [suicide(A)] the flag
    reads true; after the revert to the snapshot the flag reads false and
    the account exists again. *)
Example scenario_S6_suicide_reverted :
  observe (r <- Snapshot;; Suicide 7%N;; HasSuicided 7%N) funded_world = Some true /\
  observe (r <- Snapshot;; Suicide 7%N;; Exist 7%N) funded_world = Some false /\
  observe (r <- Snapshot;; Suicide 7%N;; RevertToSnapshot r;; HasSuicided 7%N)
    funded_world = Some false /\
  observe (r <- Snapshot;; Suicide 7%N;; RevertToSnapshot r;; Exist 7%N)
    funded_world = Some true.
Proof. repeat split; vm_compute; reflexivity. Qed.

(** ** The consent loop *)

Section Consent.
Import client.
Variable Consent : Chain -> Block -> Z -> bool * option error.
Variable IsTrunk : Chain -> Header -> bool * option error.
Abbreviation consent := (client.consent Consent IsTrunk).
Abbreviation consent_rounds := (client.consent_rounds Consent IsTrunk).

(** C1, on the code.  The packed-block branch sends one value on
    [newBlockAck] when [IsTrunk] returns no error and none when it returns
    an error: on that path the block is dropped and the packer, which
    waits for the ack, is not released. *)
Theorem packed_block_acked_only_when_IsTrunk_succeeds
    (blk : Block) (now : Z) (parked : bool) (ch : Chain) :
  acks_sent (consent (from_newBlockPacked blk) now parked ch).2 =
  match (IsTrunk ch (header blk)).2 with
  | None => 1%nat
  | Some _ => 0%nat
  end.
Proof.
  unfold client.consent.
  destruct (IsTrunk ch (header blk)) as [[] [e|]]; reflexivity.
Qed.

(** C8. When the block is not in the chain and [Consent] returns an error,
    the round looks the block up, calls [Consent], logs at warn and does
    nothing else: no [AddBlock], no [BroadcastBlock], nothing sent on
    [bestBlockUpdate], and the chain is the one it started with. *)
Theorem rejected_block_only_logged
    (blk : Block) (now : Z) (parked : bool) (ch : Chain) (err : error) :
  IsNotFound (GetBlockHeader ch (ID (header blk))).2 = true ->
  (Consent ch blk now).2 = Some err ->
  consent (from_blockCh blk) now parked ch =
  (ch, [call_GetBlockHeader (ID (header blk)); call_Consent blk now;
        log_Warn (received_bad blk err)]).
Proof.
  intros Hnf Herr. unfold client.consent. rewrite Hnf, Herr. reflexivity.
Qed.

Lemma adds_of_app id es es' :
  adds_of id (es ++ es') = (adds_of id es + adds_of id es')%nat.
Proof. unfold adds_of. rewrite filter_app, length_app. reflexivity. Qed.

Lemma IsNotFound_GetBlockHeader ch id :
  IsNotFound (GetBlockHeader ch id).2 = bool_decide (blocks ch !! id = None).
Proof.
  unfold GetBlockHeader. destruct (blocks ch !! id) as [[blk t]|]; reflexivity.
Qed.

(** A round never takes a block out of the chain. *)
Lemma consent_keeps_blocks c now parked ch id :
  is_Some (blocks ch !! id) ->
  is_Some (blocks (consent c now parked ch).1 !! id).
Proof.
  intros Hin. unfold client.consent. destruct c as [blk|blk|]; simpl; auto.
  - destruct (negb _); simpl; auto.
    destruct (Consent ch blk now) as [trunk [e|]]; simpl; auto.
    rewrite lookup_insert. case_decide; [eauto | exact Hin].
  - destruct (IsTrunk ch (header blk)) as [trunk [e|]]; simpl; auto.
    rewrite lookup_insert. case_decide; [eauto | exact Hin].
Qed.

Lemma adds_of_cons id e es :
  adds_of id (e :: es) = ((if is_add id e then 1 else 0) + adds_of id es)%nat.
Proof.
  unfold adds_of. rewrite filter_cons. destruct (is_add id e).
  - rewrite decide_True by reflexivity. reflexivity.
  - rewrite decide_False by discriminate. reflexivity.
Qed.

Lemma adds_of_nil id : adds_of id [] = 0%nat.
Proof. reflexivity. Qed.

(** What a round adds of [id]: nothing when [id] is in the chain already,
    at most once otherwise, and then [id] is in the chain. *)
Lemma consent_adds c now parked ch id :
  not_packed id c ->
  let r := consent c now parked ch in
  (is_Some (blocks ch !! id) -> adds_of id r.2 = 0%nat) /\
  (adds_of id r.2 <= 1)%nat /\
  (adds_of id r.2 = 1%nat -> is_Some (blocks r.1 !! id)).
Proof.
  intros Hnp. unfold client.consent. destruct c as [blk|blk|]; simpl.
  - rewrite IsNotFound_GetBlockHeader.
    destruct (blocks ch !! ID (header blk)) as [b|] eqn:El; simpl.
    + repeat split; auto; discriminate.
    + destruct (Consent ch blk now) as [trunk [e|]]; simpl.
      * repeat split; auto; discriminate.
      * assert (Hn : adds_of id
                  ([call_GetBlockHeader (ID (header blk)); call_Consent blk now;
                    call_AddBlock blk trunk] ++
                   (if trunk
                    then [log_Info (received_trunk blk); call_BroadcastBlock blk] ++
                         (if parked then [send_bestBlockUpdate] else [])
                    else [log_Info (received_branch blk)])) =
                  if bool_decide (ID (header blk) = id) then 1%nat else 0%nat).
        { destruct trunk, parked; simpl; rewrite !adds_of_cons, adds_of_nil; simpl;
            destruct (bool_decide (ID (header blk) = id)); reflexivity. }
        simpl in Hn. rewrite Hn. clear Hn.
        destruct (bool_decide_reflect (ID (header blk) = id)) as [<-|Hne].
        -- repeat split; auto.
           ++ intros [b Hb]. congruence.
           ++ intros _. rewrite lookup_insert_eq. eauto.
        -- repeat split; auto; discriminate.
  - simpl in Hnp.
    destruct (IsTrunk ch (header blk)) as [trunk [e|]]; simpl.
    + repeat split; auto; discriminate.
    + assert (Hn : adds_of id
                ([call_IsTrunk (header blk); call_AddBlock blk trunk] ++
                 (if trunk then [call_BroadcastBlock blk] else []) ++
                 [send_newBlockAck]) = 0%nat).
      { destruct trunk; simpl; rewrite !adds_of_cons, adds_of_nil; simpl;
          rewrite bool_decide_eq_false_2 by exact Hnp; reflexivity. }
      simpl in Hn. rewrite Hn. repeat split; auto; discriminate.
  - repeat split; auto; discriminate.
Qed.

Lemma consent_rounds_adds_none rs ch id :
  Forall (fun r => not_packed id (fired r)) rs ->
  is_Some (blocks ch !! id) ->
  adds_of id (consent_rounds rs ch).2 = 0%nat.
Proof.
  intros Hall. revert ch. induction Hall as [|r rs Hr _ IH]; intros ch Hin; simpl.
  - reflexivity.
  - rewrite adds_of_app.
    destruct (consent_adds (fired r) (now r) (parked r) ch id Hr) as (H0 & _ & _).
    rewrite (H0 Hin), IH; [reflexivity|]. apply consent_keeps_blocks, Hin.
Qed.

Lemma consent_rounds_adds_once rs ch id :
  Forall (fun r => not_packed id (fired r)) rs ->
  (adds_of id (consent_rounds rs ch).2 <= 1)%nat.
Proof.
  intros Hall. revert ch. induction Hall as [|r rs Hr Hrs IH]; intros ch; simpl.
  - unfold adds_of. simpl. lia.
  - rewrite adds_of_app.
    destruct (consent_adds (fired r) (now r) (parked r) ch id Hr) as (_ & Hle & H1).
    specialize (IH (consent (fired r) (now r) (parked r) ch).1).
    destruct (adds_of id (consent (fired r) (now r) (parked r) ch).2) as [|[|n]] eqn:E.
    + simpl. exact IH.
    + rewrite consent_rounds_adds_none; [lia | exact Hrs | apply H1; reflexivity].
    + simpl in Hle. lia.
Qed.

(** C5. A block from the network whose id the chain store knows is dropped
    after the lookup alone, [Consent] not being called; one whose lookup
    reports NotFound goes to [Consent] with the current time.  And over any
    rounds of the loop in which the block of id [id] does not come in as a
    locally packed block, however often it comes in from the network, it is
    added to the chain at most once. *)
Theorem network_block_deduplicated_by_id :
  (forall blk now parked ch,
     IsNotFound (GetBlockHeader ch (ID (header blk))).2 = false ->
     consent (from_blockCh blk) now parked ch =
     (ch, [call_GetBlockHeader (ID (header blk))])) /\
  (forall blk now parked ch,
     IsNotFound (GetBlockHeader ch (ID (header blk))).2 = true ->
     exists rest,
       (consent (from_blockCh blk) now parked ch).2 =
       call_GetBlockHeader (ID (header blk)) :: call_Consent blk now :: rest) /\
  (forall blk ch,
     IsNotFound (GetBlockHeader ch (ID (header blk))).2 = false <->
     is_Some (blocks ch !! ID (header blk))) /\
  (forall rs ch id,
     Forall (fun r => not_packed id (fired r)) rs ->
     (adds_of id (consent_rounds rs ch).2 <= 1)%nat).
Proof.
  repeat split.
  - intros blk now parked ch Hnf. unfold client.consent. rewrite Hnf. reflexivity.
  - intros blk now parked ch Hnf. unfold client.consent. rewrite Hnf. simpl.
    destruct (Consent ch blk now) as [trunk [e|]]; simpl; eauto.
  - rewrite IsNotFound_GetBlockHeader. intros Hf.
    apply bool_decide_eq_false in Hf.
    destruct (blocks ch !! ID (header blk)); [eauto | congruence].
  - rewrite IsNotFound_GetBlockHeader. intros [b Hb].
    apply bool_decide_eq_false. congruence.
  - intros rs ch id. apply consent_rounds_adds_once.
Qed.

End Consent.

(** ** The pack loop *)

Section Adoption.
Import client.
Context {Tx P : Type}.
Variable adopt : P -> Tx -> P * option error.
Abbreviation adopt_loop := (client.adopt_loop adopt).
Abbreviation adoption := (client.adoption adopt).

Lemma adopt_loop_adoption (txs : list Tx) (p : P) :
  adoption p txs (adopt_loop txs p).2 (adopt_loop txs p).1.1 (adopt_loop txs p).1.2.
Proof.
  revert p. induction txs as [|tx txs IH]; intros p; simpl.
  - constructor.
  - destruct (adopt p tx) as [p' err] eqn:Ea. simpl.
    destruct (IsGasLimitReached err) eqn:Eg; simpl.
    + eapply adoption_stopped; eauto.
    + eapply adoption_continued; eauto.
Qed.

Lemma adoption_adopt_loop (txs : list Tx) (p p' : P) log rest :
  adoption p txs log rest p' -> adopt_loop txs p = (rest, p', log).
Proof.
  induction 1 as [p | p tx txs p' err Ea Eg | p tx txs p' err log rest p'' Ea Eg _ IH];
    simpl.
  - reflexivity.
  - rewrite Ea. simpl. rewrite Eg. reflexivity.
  - rewrite Ea. simpl. rewrite Eg, IH. reflexivity.
Qed.

Lemma adoption_shape (txs : list Tx) (p p' : P) log rest :
  adoption p txs log rest p' ->
  txs = map fst log ++ rest /\
  Forall (fun c => IsGasLimitReached c.2 = false) (removelast log) /\
  (rest <> [] -> exists c, last log = Some c /\ IsGasLimitReached c.2 = true) /\
  (Forall (fun c => IsGasLimitReached c.2 = false) log -> rest = []).
Proof.
  induction 1 as [p | p tx txs p' err Ea Eg | p tx txs p' err log rest p'' Ea Eg H IH];
    simpl.
  - repeat split; auto. intros []; reflexivity.
  - repeat split; auto.
    + intros _. eexists. split; [reflexivity | exact Eg].
    + intros Hall. apply Forall_cons in Hall as [Hc _]. simpl in Hc. congruence.
  - destruct IH as (Htxs & Hinit & Hlast & Hall). repeat split.
    + rewrite Htxs at 1. reflexivity.
    + destruct log as [|c log]; [constructor|].
      constructor; [exact Eg | exact Hinit].
    + intros Hrest. destruct (Hlast Hrest) as (c & Hc & Hg).
      exists c. split; [|exact Hg].
      destruct log as [|c' log]; [discriminate|]. exact Hc.
    + intros Hf. apply Forall_cons in Hf as [_ Hf]. auto.
Qed.

Context {PrivateKey : Type}.
Variable Prepare : Header -> Z -> (Z * P) + error.
Variable commit : P -> PrivateKey -> Block * option error.
Abbreviation pack := (client.pack Prepare adopt commit).

(** C7.  When [pack] has read the best block, [Prepare] has accepted and
    the timer fires, the block assembly of [pack] is the adoption the
    spec's words describe, run on the iterator [pack] was given and on the
    block [Prepare] returned, and it is the only such adoption: between
    the log line of the wait and the call of [commit], [pack] calls
    [adopt] on the transactions of the iterator in their order, once each,
    every call in the block the call before left; the transactions called
    on and those [pack] leaves in the iterator make up the iterator; no
    call but the last returned GasLimitReached; something is left in the
    iterator only when the last call returned GasLimitReached; when no
    call returns it the iterator is drained, whatever other errors the
    calls return; and [commit] is called on the block the last call
    left. *)
Theorem pack_adopts_in_iterator_order_until_gas_limit
    (ch : Chain) (txIter : list Tx) (privateKey : PrivateKey) (now : Z)
    (bestBlock : Block) (ts : Z) (p : P) :
  GetBestBlock ch = (Some bestBlock, None) ->
  Prepare (header bestBlock) now = inl (ts, p) ->
  exists (log : list (Tx * option error)) (rest : list Tx) (p' : P),
    adoption p txIter log rest p' /\
    (forall log0 rest0 p0,
       adoption p txIter log0 rest0 p0 -> log0 = log /\ rest0 = rest /\ p0 = p') /\
    (pack ch txIter privateKey now from_waitTime).1 = rest /\
    (pack ch txIter privateKey now from_waitTime).2 =
      [call_GetBestBlock; call_Prepare (header bestBlock) now;
       log_Info (waiting_to_propose (u32 (Number (header bestBlock) + 1))
                   (u64 (ts - now)))] ++
      map (fun c => call_adopt c.1 c.2) log ++
      match (commit p' privateKey).2 with
      | None =>
          [call_commit; log_Info (proposed (commit p' privateKey).1);
           send_newBlockPacked (commit p' privateKey).1; recv_newBlockAck]
      | Some _ => [call_commit]
      end /\
    txIter = map fst log ++ rest /\
    Forall (fun c => IsGasLimitReached c.2 = false) (removelast log) /\
    (rest <> [] -> exists c, last log = Some c /\ IsGasLimitReached c.2 = true) /\
    (Forall (fun c => IsGasLimitReached c.2 = false) log -> rest = []).
Proof.
  intros Hb Hp.
  pose proof (adopt_loop_adoption txIter p) as Had.
  exists (adopt_loop txIter p).2, (adopt_loop txIter p).1.1, (adopt_loop txIter p).1.2.
  split; [exact Had|]. split.
  { intros log0 rest0 p0 H0. apply adoption_adopt_loop in H0. rewrite H0.
    repeat split. }
  split; [|split; [|exact (adoption_shape _ _ _ _ _ Had)]].
  - unfold client.pack. rewrite Hb, Hp. cbv beta match zeta.
    destruct (commit (adopt_loop txIter p).1.2 privateKey) as [blk [e|]];
      reflexivity.
  - unfold client.pack. rewrite Hb, Hp. cbv beta match zeta.
    destruct (commit (adopt_loop txIter p).1.2 privateKey) as [blk [e|]];
      reflexivity.
Qed.

End Adoption.

(** ** The theorems at work on concrete inputs *)

(** C6 at work: adding the zero of cell 2 changes nothing, and subtracting
    the 40 of cell 1 from the empty address 7 stores -40. *)
Lemma balance_zero_noop_else_read_modify_write_witness :
  heap fresh_world !! 2%nat = Some 0 /\
  AddBalance 7%N 2%nat fresh_world = Ok tt fresh_world /\
  heap fresh_world !! 1%nat = Some 40 /\
  observe_big (SubBalance 7%N 1%nat;; GetBalance 7%N) fresh_world = Some (-40).
Proof.
  split; [reflexivity|]. split.
  { apply (balance_zero_noop_else_read_modify_write fresh_world 7%N 2%nat 0 eq_refl).
    reflexivity. }
  split; [reflexivity|].
  destruct (balance_zero_noop_else_read_modify_write fresh_world 7%N 1%nat 40 eq_refl)
    as [_ Hnz].
  destruct (Hnz ltac:(discriminate)) as [_ Hsub].
  unfold observe_big, bind. rewrite Hsub. vm_compute. reflexivity.
Defined.

(** C4 at work: address 9 does not exist and [Suicide] leaves the world but
    for the log; address 7, once funded, exists, is deleted and flagged. *)
Lemma Suicide_missing_untouched_existing_deleted_and_flagged_witness :
  Suicide 9%N funded_world =
    Ok false (mk_world (db funded_world) (heap funded_world)
                (calls funded_world ++ [CExists 9%N])) /\
  observe (Exist 7%N) funded_world = Some true /\
  observe (Suicide 7%N;; Exist 7%N) funded_world = Some false /\
  observe (Suicide 7%N;; HasSuicided 7%N) funded_world = Some true.
Proof.
  destruct (Suicide_missing_untouched_existing_deleted_and_flagged funded_world 9%N)
    as [Hmiss _].
  destruct (Suicide_missing_untouched_existing_deleted_and_flagged funded_world 7%N)
    as [_ Hex].
  destruct (Hex ltac:(vm_compute; reflexivity)) as [Hs Hflag].
  split; [apply Hmiss; vm_compute; reflexivity|].
  split; [vm_compute; reflexivity|].
  split.
  - unfold observe, bind. rewrite Hs. vm_compute. reflexivity.
  - unfold observe at 1, bind. rewrite Hs. exact Hflag.
Defined.

(** C3 at work, two snapshots deep: revision 3 and revision -1 panic,
    revision 0 reverts twice and then pops. *)
Lemma RevertToSnapshot_panics_iff_out_of_range_else_reverts_then_pops_witness :
  let w := world_after (Snapshot;; Snapshot) fresh_world in
  stackedmap.Depth (repo (db w)) = 2 /\
  (exists e, RevertToSnapshot 3 w = Panic e) /\
  (exists e, RevertToSnapshot (-1) w = Panic e) /\
  calls (world_after (RevertToSnapshot 0) w) =
    calls w ++ [CDepth; CDepth; CRevert; CRevert; CPopTo 0].
Proof.
  intros w.
  destruct (RevertToSnapshot_panics_iff_out_of_range_else_reverts_then_pops w 3)
    as [[_ Hhigh] _].
  destruct (RevertToSnapshot_panics_iff_out_of_range_else_reverts_then_pops w (-1))
    as [[_ Hlow] _].
  destruct (RevertToSnapshot_panics_iff_out_of_range_else_reverts_then_pops w 0)
    as [_ Hin].
  assert (Hd : stackedmap.Depth (repo (db w)) = 2) by (vm_compute; reflexivity).
  split; [exact Hd|].
  split; [apply Hhigh; rewrite Hd; lia|].
  split; [apply Hlow; lia|].
  unfold world_after at 1. rewrite Hin by (rewrite Hd; lia).
  rewrite Hd. reflexivity.
Defined.

(** C9 at work: with no refund stored the total reads 0; after
    [AddRefund] of the 100 of cell 0 it reads 100, in a new cell, and the
    cells of the caller hold what they held. *)
Lemma AddRefund_stores_fresh_total_and_mutates_no_cell_witness :
  observe_big GetRefund fresh_world = Some 0 /\
  exists (w' : world memstate.t) (total : ptr),
    AddRefund 0%nat fresh_world = Ok tt w' /\
    (3 <= total)%nat /\
    heap w' !! total = Some 100 /\
    heap w' !! 0%nat = Some 100 /\
    observe_big GetRefund w' = Some 100.
Proof.
  destruct (AddRefund_stores_fresh_total_and_mutates_no_cell fresh_world)
    as [Hget Hadd].
  assert (H0 : observe_big GetRefund fresh_world = Some 0)
    by (rewrite Hget; reflexivity).
  split; [exact H0|].
  destruct (Hadd 0%nat 100 0 eq_refl H0)
    as (w' & total & Hrun & Hfresh & Hval & Hold & _ & _ & _ & _ & Hobs).
  exists w', total. repeat split; auto.
Defined.

(** C8 at work: block 5 offered at time 3 is turned down and only logged. *)
Lemma rejected_block_only_logged_witness :
  client.consent client.sample_Consent client.sample_IsTrunk
    (client.from_blockCh client.block_5) 3 true client.empty_Chain =
  (client.empty_Chain,
   [client.call_GetBlockHeader 55%N; client.call_Consent client.block_5 3;
    client.log_Warn (client.received_bad client.block_5 (client.errOther 1))]).
Proof.
  apply (rejected_block_only_logged client.sample_Consent client.sample_IsTrunk
           client.block_5 3 true client.empty_Chain (client.errOther 1));
    reflexivity.
Defined.

(** C1 at work: [IsTrunk] fails on the packed block 13; the branch calls
    [IsTrunk] and returns, and no ack is sent. *)
Lemma packed_block_13_dropped_without_ack :
  (client.sample_IsTrunk client.empty_Chain (client.header client.block_13)).2 =
    Some (client.errOther 2) /\
  client.consent client.sample_Consent client.sample_IsTrunk
    (client.from_newBlockPacked client.block_13) 20 true client.empty_Chain =
  (client.empty_Chain, [client.call_IsTrunk (client.header client.block_13)]) /\
  client.acks_sent
    (client.consent client.sample_Consent client.sample_IsTrunk
       (client.from_newBlockPacked client.block_13) 20 true client.empty_Chain).2 = 0%nat.
Proof.
  split; [reflexivity|]. split; [reflexivity|].
  rewrite packed_block_acked_only_when_IsTrunk_succeeds. reflexivity.
Defined.

(** C5 at work: block 5 comes in from the network three times, at times 3,
    9 and 9; it is turned down, then added, then dropped. *)
Lemma network_block_deduplicated_by_id_witness :
  let rs := [client.mk_round (client.from_blockCh client.block_5) 3 true;
             client.mk_round (client.from_blockCh client.block_5) 9 true;
             client.mk_round (client.from_blockCh client.block_5) 9 false] in
  let run := client.consent_rounds client.sample_Consent client.sample_IsTrunk
               rs client.empty_Chain in
  (client.adds_of 55%N run.2 <= 1)%nat /\
  client.adds_of 55%N run.2 = 1%nat /\
  is_Some (client.blocks run.1 !! 55%N).
Proof.
  intros rs run.
  destruct (network_block_deduplicated_by_id client.sample_Consent client.sample_IsTrunk)
    as (_ & _ & _ & Honce).
  split.
  - apply Honce. repeat constructor.
  - split; vm_compute; eauto.
Defined.

(** C7 at work: the best block is block 5 and [Prepare] gives a block with
    10 of gas left; the iterator holds transactions asking for 3, 0, 4, 9
    and 2.  The second is turned down and skipped, the fourth meets the
    gas limit and ends the adoption, the fifth stays in the iterator, and
    the block committed has used 7 of gas. *)
Lemma pack_adopts_in_iterator_order_until_gas_limit_witness :
  let ch := client.AddBlock client.empty_Chain client.block_5 true in
  let Prepare := fun (parent : client.Header) (now : Z) =>
                   inl (now + 2, 10) : (Z * Z) + client.error in
  let commit := fun (gas : Z) (_ : unit) =>
                  (client.mk_Block (client.mk_Header 66%N 6) (10 - gas),
                   None : option client.error) in
  let blk := client.mk_Block (client.mk_Header 66%N 6) 7 in
  let log := [(3, None); (0, Some (client.errOther 3)); (4, None);
              (9, Some client.errGasLimitReached)] in
  client.GetBestBlock ch = (Some client.block_5, None) /\
  client.adoption client.sample_adopt 10 [3; 0; 4; 9; 2] log [2] 3 /\
  client.pack Prepare client.sample_adopt commit ch [3; 0; 4; 9; 2] tt 100
    client.from_waitTime =
  ([2], [client.call_GetBestBlock;
         client.call_Prepare (client.header client.block_5) 100;
         client.log_Info (client.waiting_to_propose 6 2);
         client.call_adopt 3 None;
         client.call_adopt 0 (Some (client.errOther 3));
         client.call_adopt 4 None;
         client.call_adopt 9 (Some client.errGasLimitReached);
         client.call_commit;
         client.log_Info (client.proposed blk);
         client.send_newBlockPacked blk;
         client.recv_newBlockAck]).
Proof.
  intros ch Prepare commit blk log.
  destruct (pack_adopts_in_iterator_order_until_gas_limit
              client.sample_adopt Prepare commit ch [3; 0; 4; 9; 2] tt 100
              client.block_5 102 10 eq_refl eq_refl)
    as (log' & rest' & p' & Had & _ & H1 & H2 & _).
  pose proof (adoption_adopt_loop _ _ _ _ _ _ Had) as E.
  vm_compute in E. injection E as <- <- <-.
  split; [reflexivity|]. split; [exact Had|].
  rewrite (surjective_pairing (client.pack _ _ _ _ _ _ _ _)), H1, H2.
  vm_compute. reflexivity.
Defined.

(** C10 at work: a journal holding a suicide flag, a refund, two preimages
    and two logs shows [GetPreimages] its two preimages and [GetLogs] its
    two logs. *)
Lemma GetPreimages_GetLogs_pass_over_other_keys_witness :
  let w := world_after
             (mutate_all [mAddBalance 7%N 0%nat; mSuicide 7%N; mAddPreimage 11%N [1; 2];
                          mAddRefund 1%nat;
                          mAddLog (Some (mk_types_Log 7%N [5%N] [9]));
                          mAddPreimage 12%N [3];
                          mAddLog (Some (mk_types_Log 8%N [] []))]) fresh_world in
  map fst (stackedmap.entries same_key (repo (db w))) =
    [suicideFlagKey 7%N; preimageKey 11%N; refundKey; logKey; preimageKey 12%N;
     logKey] /\
  all_preimages w = Some [(11%N, [1; 2]); (12%N, [3])] /\
  all_logs w = Some [mk_Log 7%N [5%N] [9]; mk_Log 8%N [] []].
Proof.
  intros w.
  destruct (GetPreimages_GetLogs_pass_over_other_keys (S := memstate.t)
              (fun h b => collect (h, b)) (fun _ acc => (false, acc)))
    as (_ & _ & Hpre & _).
  destruct (GetPreimages_GetLogs_pass_over_other_keys (S := memstate.t)
              (fun _ _ acc => (false, acc)) (@collect Log))
    as (_ & _ & _ & Hlog).
  split; [vm_compute; reflexivity|].
  unfold all_preimages, all_logs. rewrite Hpre, Hlog.
  split; vm_compute; reflexivity.
Defined.

(** The journal on the scenario S1 of the spec: push, put 1, push, put 2,
    and the reads at depths 2, 1 and 0; the two pushes return 0 and 1. *)
Example stackedmap_scenario :
  let m0 : stackedmap.StackedMap nat Z := stackedmap.New in
  let m1 := stackedmap.Put Nat.eqb (stackedmap.Push m0).2 5%nat 1 in
  let m2 := stackedmap.Put Nat.eqb (stackedmap.Push m1).2 5%nat 2 in
  (stackedmap.Push m0).1 = 0 /\ (stackedmap.Push m1).1 = 1 /\
  stackedmap.lookup Nat.eqb m2 5%nat = Some 2 /\
  (m1' ← stackedmap.PopTo m2 1; stackedmap.lookup Nat.eqb m1' 5%nat) = Some 1 /\
  (m0' ← stackedmap.PopTo m2 0; Some (stackedmap.lookup Nat.eqb m0' 5%nat)) = Some None /\
  stackedmap.PopTo m2 3 = None.
Proof. repeat split. Qed.

(** One attempt of [pack] on a chain whose best block is block 5: the
    timer fires, two transactions are adopted and the block is handed to
    the consent loop, after which the packer waits for the ack. *)
Example pack_scenario :
  let ch := client.AddBlock client.empty_Chain client.block_5 true in
  client.pack (fun parent now => inl (now + 2, 10)) client.sample_adopt
    (fun gas (_ : unit) => (client.mk_Block (client.mk_Header 66%N 6) (10 - gas), None))
    ch [3; 4] tt 100 client.from_waitTime =
  ([], [client.call_GetBestBlock;
        client.call_Prepare (client.header client.block_5) 100;
        client.log_Info (client.waiting_to_propose 6 2);
        client.call_adopt 3 None; client.call_adopt 4 None;
        client.call_commit;
        client.log_Info (client.proposed (client.mk_Block (client.mk_Header 66%N 6) 7));
        client.send_newBlockPacked (client.mk_Block (client.mk_Header 66%N 6) 7);
        client.recv_newBlockAck]).
Proof. vm_compute. reflexivity. Qed.

(** * Further properties of the facade *)

Section Facade.
Context {S : Type} `{!State S}.

Ltac invert_ok H :=
  run_in H;
  repeat match type of H with
  | context [match ?x with _ => _ end] =>
      lazymatch x with
      | context [match _ with _ => _ end] => fail
      | _ => destruct x eqn:?; simpl in H
      end
  end;
  try discriminate; injection H as <-.

Lemma ask_keeps_db (q : query) (w w' : world S) :
  ask q w = Ok tt w' -> db w' = db w /\ heap_extends w w'.
Proof.
  destruct q; simpl; intros H;
    unfold GetBalance, GetNonce, GetCodeHash, GetCode, GetCodeSize, HasSuicided,
      GetState, Exist, Empty, GetRefund, GetLogs, GetPreimages in H;
    invert_ok H; simpl;
    (split; [destruct w as [[? ?] ? ?]; reflexivity|]);
    first [ apply heap_extends_same; reflexivity
          | eapply heap_extends_app; simpl; reflexivity ].
Qed.

(** X1.  Reading is repeatable: whatever reading methods have run, without a
    panic, the state and the journal are the ones they started from, no
    [big.Int] the caller holds has changed, and every observable of the
    facade reads as before. *)
Theorem reading_changes_nothing_observable (qs : list query) (w w' : world S) :
  foldr (fun q k => ask q;; k) (ret tt) qs w = Ok tt w' ->
  db w' = db w /\ heap_extends w w' /\ same_observables w w'.
Proof.
  revert w. induction qs as [|q qs IH]; simpl; intros w H.
  - injection H as <-.
    assert (Hh : heap_extends w w) by (apply heap_extends_same; reflexivity).
    split; [reflexivity|]. split; [exact Hh|].
    apply same_observables_intro; [repeat split | reflexivity | exact Hh].
  - apply bind_inv in H as ([] & w1 & Hq & Hrest).
    apply ask_keeps_db in Hq as [Hdb Hh].
    destruct (IH _ Hrest) as (Hdb' & Hh' & _).
    assert (Hdbw : db w' = db w) by congruence.
    assert (Hhw : heap_extends w w') by (eapply heap_extends_trans; eauto).
    split; [exact Hdbw|]. split; [exact Hhw|].
    apply same_observables_intro; [rewrite Hdbw; repeat split | | exact Hhw].
    rewrite Hdbw. reflexivity.
Qed.

End Facade.

Section Balances.
Context {S : Type} `{!State S}.

Lemma AddBalance_nonzero (w : world S) (a : Address) (p : ptr) (z : Z) :
  heap w !! p = Some z -> z <> 0 ->
  let old := state_GetBalance (state (db w)) a in
  AddBalance a p w =
  Ok tt (mk_world
           (mk_StateDB (state_SetBalance (state (db w)) a (old + z)) (repo (db w)))
           (heap w ++ [old] ++ [old + z])
           (calls w ++ [CGetBalance a] ++ [CSetBalance a (old + z)])).
Proof.
  intros Hz Hnz old. subst old.
  assert (Hs : bool_decide (Z.sgn z = 0) = false)
    by (apply bool_decide_eq_false_2; lia).
  run. rewrite Hz. simpl. rewrite Hs. simpl.
  rewrite lookup_snoc. simpl.
  rewrite (lookup_snoc_old _ _ _ _ Hz). simpl.
  rewrite lookup_snoc. simpl.
  rewrite <- !app_assoc. reflexivity.
Qed.

Lemma SubBalance_nonzero (w : world S) (a : Address) (p : ptr) (z : Z) :
  heap w !! p = Some z -> z <> 0 ->
  let old := state_GetBalance (state (db w)) a in
  SubBalance a p w =
  Ok tt (mk_world
           (mk_StateDB (state_SetBalance (state (db w)) a (old - z)) (repo (db w)))
           (heap w ++ [old] ++ [old - z])
           (calls w ++ [CGetBalance a] ++ [CSetBalance a (old - z)])).
Proof.
  intros Hz Hnz old. subst old.
  assert (Hs : bool_decide (Z.sgn z = 0) = false)
    by (apply bool_decide_eq_false_2; lia).
  run. rewrite Hz. simpl. rewrite Hs. simpl.
  rewrite lookup_snoc. simpl.
  rewrite (lookup_snoc_old _ _ _ _ Hz). simpl.
  rewrite lookup_snoc. simpl.
  rewrite <- !app_assoc. reflexivity.
Qed.

Lemma balance_zero (w : world S) (a : Address) (p : ptr) :
  heap w !! p = Some 0 ->
  AddBalance a p w = Ok tt w /\ SubBalance a p w = Ok tt w.
Proof. intros Hz. split; run; rewrite Hz; reflexivity. Qed.

Lemma balance_nil (w : world S) (a : Address) (p : ptr) :
  heap w !! p = None ->
  AddBalance a p w = Panic NilDereference /\
  SubBalance a p w = Panic NilDereference.
Proof. intros Hz. split; run; rewrite Hz; reflexivity. Qed.

(** X3.  Over a state that returns the balance it was last given, subtracting
    what was just added brings the balance of the address back, whatever
    the amount and the balance are: no bound stands in the way. *)
Theorem AddBalance_then_SubBalance_restores_balance
    (w : world S) (a : Address) (p : ptr) (z : Z) :
  (forall s a' v, state_GetBalance (state_SetBalance s a' v) a' = v) ->
  heap w !! p = Some z ->
  observe_big (AddBalance a p;; SubBalance a p;; GetBalance a) w =
  observe_big (GetBalance a) w.
Proof.
  intros Hgs Hz. rewrite observe_big_GetBalance.
  destruct (decide (z = 0)) as [->|Hnz].
  - destruct (balance_zero w a p Hz) as [Ha Hs].
    unfold observe_big. erewrite bind_Ok by exact Ha.
    erewrite bind_Ok by exact Hs.
    apply (observe_big_GetBalance w a).
  - unfold observe_big.
    erewrite bind_Ok by (apply (AddBalance_nonzero w a p z Hz Hnz)).
    erewrite bind_Ok; cycle 1.
    { apply (SubBalance_nonzero _ a p z); [|exact Hnz].
      simpl. apply lookup_app_l_Some, Hz. }
    simpl state. rewrite Hgs.
    match goal with
    | |- match GetBalance a ?w1 with _ => _ end = _ =>
        change (observe_big (GetBalance a) w1 =
                Some (state_GetBalance (state (db w)) a));
        rewrite (observe_big_GetBalance w1 a)
    end.
    simpl. rewrite Hgs. f_equal. lia.
Qed.

End Balances.

Section Mutations.
Context {S : Type} `{!State S}.

Ltac invert_ok H :=
  run_in H;
  repeat match type of H with
  | context [match ?x with _ => _ end] =>
      lazymatch x with
      | context [match _ with _ => _ end] => fail
      | _ => destruct x eqn:?; simpl in H
      end
  end;
  try discriminate; injection H as <-.

Lemma mutate_Depth (m : mutation) (w w' : world S) :
  mutate m w = Ok tt w' ->
  stackedmap.Depth (repo (db w')) =
  stackedmap.Depth (repo (db w)) + (if is_snapshot m then 1 else 0).
Proof.
  assert (HP : forall k v,
            stackedmap.Depth (stackedmap.Put same_key (repo (db w)) k v) =
            stackedmap.Depth (repo (db w)))
    by (intros; apply Put_below).
  destruct m; simpl; intros H.
  - unfold AddBalance in H. invert_ok H; simpl; lia.
  - unfold SubBalance in H. invert_ok H; simpl; lia.
  - unfold SetCode in H. invert_ok H; simpl; lia.
  - unfold SetState in H. invert_ok H; simpl; lia.
  - unfold AddRefund in H. run_in H.
    destruct (stackedmap.lookup same_key (repo (db w)) refundKey) as [[]|];
      simpl in H; try discriminate; invert_ok H; simpl; rewrite HP; lia.
  - unfold Suicide in H. run_in H.
    destruct (state_Exists (state (db w)) addr); simpl in H; injection H as <-;
      simpl; rewrite ?HP; lia.
  - unfold AddLog in H. destruct vmlog; [|discriminate]. invert_ok H.
    simpl. rewrite HP. lia.
  - unfold AddPreimage in H. invert_ok H. simpl. rewrite HP. lia.
  - unfold Snapshot in H. invert_ok H. unfold stackedmap.Depth. simpl. lia.
Qed.

(** X5.  The depth of the journal moves with the snapshots alone: after a run of
    mutations it is the depth before plus the number of snapshots taken, so
    a revision that was in range stays in range. *)
Theorem mutations_raise_depth_by_snapshots (ms : list mutation) (w w' : world S) :
  mutate_all ms w = Ok tt w' ->
  stackedmap.Depth (repo (db w')) = stackedmap.Depth (repo (db w)) + snapshots ms.
Proof.
  revert w. induction ms as [|m ms IH]; simpl; intros w H.
  - injection H as <-. unfold snapshots. simpl. lia.
  - apply bind_inv in H as ([] & w1 & Hm & Hrest).
    rewrite (IH _ Hrest), (mutate_Depth _ _ _ Hm).
    unfold snapshots. rewrite filter_cons.
    destruct (is_snapshot m).
    + rewrite decide_True by reflexivity. simpl length. lia.
    + rewrite decide_False by discriminate. lia.
Qed.

End Mutations.

(** ** More on the journal under the facade's keys *)

Lemma same_key_eq (k k' : key) : same_key k k' = true -> k = k'.
Proof.
  destruct k; simpl; try discriminate; intros H; apply bool_decide_eq_true in H;
    exact H.
Qed.

Lemma same_key_logKey_r (k : key) : same_key k logKey = false.
Proof.
  destruct k; simpl; try reflexivity; apply bool_decide_eq_false_2; discriminate.
Qed.

Lemma frame_lookup_put_other (f : stackedmap.frame key value) k k' v :
  k' <> k ->
  stackedmap.frame_lookup same_key k' (stackedmap.frame_put same_key k v f) =
  stackedmap.frame_lookup same_key k' f.
Proof.
  intros Hne. induction f as [|[k0 v0] f IH]; simpl.
  - destruct (same_key k' k) eqn:E; [|reflexivity].
    apply same_key_eq in E. contradiction.
  - destruct (same_key k k0) eqn:E; simpl.
    + apply same_key_eq in E. subst k0.
      destruct (same_key k' k) eqn:E'; [|reflexivity].
      apply same_key_eq in E'. contradiction.
    + rewrite IH. reflexivity.
Qed.

(** A write leaves the other keys as they read. *)
Lemma lookup_Put_other (sm : stackedmap.StackedMap key value) k k' v :
  k' <> k ->
  stackedmap.lookup same_key (stackedmap.Put same_key sm k v) k' =
  stackedmap.lookup same_key sm k'.
Proof.
  intros Hne. unfold stackedmap.lookup, stackedmap.Put.
  destruct (stackedmap.frames sm) as [|f fs]; simpl.
  - apply frame_lookup_put_other, Hne.
  - rewrite frame_lookup_put_other by exact Hne. reflexivity.
Qed.

(** A new frame leaves every key as it reads. *)
Lemma lookup_Push (sm : stackedmap.StackedMap key value) k :
  stackedmap.lookup same_key (stackedmap.Push sm).2 k = stackedmap.lookup same_key sm k.
Proof. reflexivity. Qed.

Section Flags.
Context {S : Type} `{!State S}.

Ltac invert_ok H :=
  run_in H;
  repeat match type of H with
  | context [match ?x with _ => _ end] =>
      lazymatch x with
      | context [match _ with _ => _ end] => fail
      | _ => destruct x eqn:?; simpl in H
      end
  end;
  try discriminate; injection H as <-.

Lemma mutate_keeps_flag (m : mutation) (w w' : world S) (a : Address) :
  mutate m w = Ok tt w' ->
  stackedmap.lookup same_key (repo (db w)) (suicideFlagKey a) = Some (VBool true) ->
  stackedmap.lookup same_key (repo (db w')) (suicideFlagKey a) = Some (VBool true).
Proof.
  intros H Hflag. destruct m; simpl in H.
  - unfold AddBalance in H. invert_ok H; exact Hflag.
  - unfold SubBalance in H. invert_ok H; exact Hflag.
  - unfold SetCode in H. invert_ok H; exact Hflag.
  - unfold SetState in H. invert_ok H; exact Hflag.
  - unfold AddRefund in H. run_in H.
    destruct (stackedmap.lookup same_key (repo (db w)) refundKey) as [[]|];
      simpl in H; try discriminate; invert_ok H; simpl;
      rewrite lookup_Put_other by discriminate; exact Hflag.
  - unfold Suicide in H. run_in H.
    destruct (state_Exists (state (db w)) addr); simpl in H; injection H as <-;
      simpl; [|exact Hflag].
    destruct (decide (addr = a)) as [->|Hne].
    + apply lookup_Put, same_key_refl. discriminate.
    + rewrite lookup_Put_other by congruence. exact Hflag.
  - unfold AddLog in H. destruct vmlog; [|discriminate]. invert_ok H.
    simpl. rewrite lookup_Put_other by discriminate. exact Hflag.
  - unfold AddPreimage in H. invert_ok H.
    simpl. rewrite lookup_Put_other by discriminate. exact Hflag.
  - unfold Snapshot in H. invert_ok H. exact Hflag.
Qed.

(** X6.  A suicide flag, once read as set, stays set through any run of
    mutations and snapshots: nothing but a revert clears it, not even the
    address being given a balance, code or storage again. *)
Theorem HasSuicided_stays_true_through_mutations
    (ms : list mutation) (w w' : world S) (a : Address) :
  observe (HasSuicided a) w = Some true ->
  mutate_all ms w = Ok tt w' ->
  observe (HasSuicided a) w' = Some true.
Proof.
  rewrite !observe_HasSuicided. intros Hf Hrun.
  assert (Hflag : stackedmap.lookup same_key (repo (db w)) (suicideFlagKey a) =
                  Some (VBool true)).
  { destruct (stackedmap.lookup same_key (repo (db w)) (suicideFlagKey a))
      as [[[]| | | |]|]; try discriminate; reflexivity. }
  clear Hf. revert w Hflag Hrun.
  induction ms as [|m ms IH]; simpl; intros w Hflag Hrun.
  - injection Hrun as <-. rewrite Hflag. reflexivity.
  - apply bind_inv in Hrun as ([] & w1 & Hm & Hrest).
    eapply IH; [|exact Hrest]. eapply mutate_keeps_flag; eauto.
Qed.

End Flags.

Section Refunds.
Context {S : Type} `{!State S}.

Lemma AddRefund_adds (w : world S) (gas : ptr) (g t : Z) :
  heap w !! gas = Some g ->
  observe_big GetRefund w = Some t ->
  exists w', AddRefund gas w = Ok tt w' /\ heap_extends w w' /\
             observe_big GetRefund w' = Some (t + g).
Proof.
  intros Hg Ht. rewrite observe_big_GetRefund in Ht.
  destruct (stackedmap.lookup same_key (repo (db w)) refundKey) as [v|] eqn:El.
  - destruct v as [|p| | |]; try discriminate.
    eexists. split.
    { unfold AddRefund. run. rewrite El. simpl. rewrite Ht. simpl.
      rewrite Hg. simpl. reflexivity. }
    split; [eapply heap_extends_app; reflexivity|].
    rewrite observe_big_GetRefund. simpl.
    rewrite lookup_Put by (apply same_key_refl; discriminate). apply lookup_snoc.
  - injection Ht as <-.
    eexists. split.
    { unfold AddRefund. run. rewrite El. simpl. rewrite lookup_snoc. simpl.
      rewrite (lookup_snoc_old _ _ _ _ Hg). simpl. reflexivity. }
    split; [eapply heap_extends_app; simpl; rewrite <- app_assoc; reflexivity|].
    rewrite observe_big_GetRefund. simpl.
    rewrite lookup_Put by (apply same_key_refl; discriminate). apply lookup_snoc.
Qed.

(** X7.  Refunds add up: after [AddRefund] of each of a list of amounts,
    [GetRefund] reads the total it read before plus their sum, whatever
    their signs. *)
Theorem AddRefund_accumulates (gs : list ptr) (zs : list Z) (w : world S) (t : Z) :
  Forall2 (fun g z => heap w !! g = Some z) gs zs ->
  observe_big GetRefund w = Some t ->
  exists w', mutate_all (map mAddRefund gs) w = Ok tt w' /\
             observe_big GetRefund w' = Some (t + foldr Z.add 0 zs).
Proof.
  revert zs w t. induction gs as [|g gs IH]; intros zs w t Hall Ht.
  - apply Forall2_nil_inv_l in Hall as ->. exists w. simpl.
    split; [reflexivity|]. rewrite Ht. f_equal. lia.
  - apply Forall2_cons_inv_l in Hall as (z & zs' & Hz & Hrest & ->).
    destruct (AddRefund_adds w g z t Hz Ht) as (w1 & Hrun & Hext & Ht1).
    destruct (IH zs' w1 (t + z)) as (w' & Hruns & Ht').
    + eapply Forall2_impl; [exact Hrest|]. intros g' z' Hg'. apply Hext, Hg'.
    + exact Ht1.
    + exists w'. simpl. erewrite bind_Ok by exact Hrun.
      split; [exact Hruns|]. rewrite Ht'. f_equal. lia.
Qed.

End Refunds.

(** ** Logs are kept in the order they were added *)

Lemma frame_put_logKey (f : stackedmap.frame key value) v :
  stackedmap.frame_put same_key logKey v f = f ++ [(logKey, v)].
Proof.
  induction f as [|[k0 v0] f IH]; simpl; [reflexivity|]. rewrite IH. reflexivity.
Qed.

Lemma frame_lookup_snoc_logKey (f : stackedmap.frame key value) k v :
  stackedmap.frame_lookup same_key k (f ++ [(logKey, v)]) =
  stackedmap.frame_lookup same_key k f.
Proof.
  induction f as [|[k0 v0] f IH]; simpl.
  - rewrite same_key_logKey_r. reflexivity.
  - rewrite IH. reflexivity.
Qed.

Lemma frames_lookup_app (a b : list (stackedmap.frame key value)) k :
  stackedmap.frames_lookup same_key k (a ++ b) =
  match stackedmap.frames_lookup same_key k a with
  | Some v => Some v
  | None => stackedmap.frames_lookup same_key k b
  end.
Proof.
  induction a as [|f a IH]; simpl; [reflexivity|].
  destruct (stackedmap.frame_lookup same_key k f); [reflexivity | exact IH].
Qed.

Lemma live_in_ext (above above' : list (stackedmap.frame key value)) f :
  (forall k, stackedmap.frames_lookup same_key k above =
             stackedmap.frames_lookup same_key k above') ->
  stackedmap.live_in same_key above f = stackedmap.live_in same_key above' f.
Proof.
  intros E. unfold stackedmap.live_in. apply list_filter_iff.
  intros [k v]. simpl. rewrite E. reflexivity.
Qed.

Lemma live_under_ext (fs above above' : list (stackedmap.frame key value)) :
  (forall k, stackedmap.frames_lookup same_key k above =
             stackedmap.frames_lookup same_key k above') ->
  stackedmap.live_under same_key above fs = stackedmap.live_under same_key above' fs.
Proof.
  revert above above'. induction fs as [|f fs IH]; intros above above' E; simpl.
  - reflexivity.
  - rewrite (live_in_ext above above' f E). f_equal.
    apply IH. intros k. rewrite !frames_lookup_app, E. reflexivity.
Qed.

Lemma frames_lookup_logKey (above : list (stackedmap.frame key value)) :
  stackedmap.frames_lookup same_key logKey above = None.
Proof.
  induction above as [|f above IH]; [reflexivity|].
  change (match stackedmap.frame_lookup same_key logKey f with
          | Some v => Some v
          | None => stackedmap.frames_lookup same_key logKey above
          end = None).
  rewrite IH. induction f as [|[k0 v0] f IHf]; [reflexivity | exact IHf].
Qed.

Lemma live_in_snoc_logKey (above : list (stackedmap.frame key value)) f v :
  stackedmap.live_in same_key above (f ++ [(logKey, v)]) =
  stackedmap.live_in same_key above f ++ [(logKey, v)].
Proof.
  unfold stackedmap.live_in, stackedmap.frame. rewrite filter_app. f_equal.
  rewrite filter_cons, filter_nil.
  rewrite decide_True by apply frames_lookup_logKey. reflexivity.
Qed.

(** A write under the log key comes last among the journal's entries and
    leaves the others in place. *)
Lemma entries_Put_logKey (sm : stackedmap.StackedMap key value) v :
  stackedmap.entries same_key (stackedmap.Put same_key sm logKey v) =
  stackedmap.entries same_key sm ++ [(logKey, v)].
Proof.
  unfold stackedmap.entries, stackedmap.Put.
  destruct (stackedmap.frames sm) as [|f fs].
  - cbn [stackedmap.frames stackedmap.base stackedmap.live_under].
    rewrite frame_put_logKey, !app_nil_r. apply live_in_snoc_logKey.
  - cbn [stackedmap.frames stackedmap.base stackedmap.live_under].
    rewrite frame_put_logKey, live_in_snoc_logKey.
    assert (E : forall k,
              stackedmap.frames_lookup same_key k [f ++ [(logKey, v)]] =
              stackedmap.frames_lookup same_key k [f]).
    { intros k. simpl. rewrite frame_lookup_snoc_logKey. reflexivity. }
    assert (E' : forall k,
              stackedmap.frames_lookup same_key k ((f ++ [(logKey, v)]) :: fs) =
              stackedmap.frames_lookup same_key k (f :: fs)).
    { intros k. simpl. rewrite frame_lookup_snoc_logKey. reflexivity. }
    rewrite <- !app_assoc. f_equal; [apply live_in_ext, E'|].
    f_equal. apply live_under_ext, E.
Qed.

Lemma visit_all_collect_logs (es es' : list (key * value)) (t t' : list Log) :
  stackedmap.visit_all (log_visitor collect) es t = Some t' ->
  stackedmap.visit_all (log_visitor collect) (es ++ es') t =
  stackedmap.visit_all (log_visitor collect) es' t'.
Proof.
  revert t. induction es as [|[k v] es IH]; simpl; intros t H.
  - injection H as <-. reflexivity.
  - destruct k; simpl in *; try (apply IH; exact H).
    destruct v; simpl in *; try discriminate. apply IH. exact H.
Qed.

Section Logs.
Context {S : Type} `{!State S}.

(** X8.  [AddLog] of a log that is not nil returns, and [GetLogs] then shows the
    logs it showed before, in the same order, followed by the new one as
    [vmlogToLog] converts it; this holds at any depth of the journal and
    whatever else the journal holds. *)
Theorem AddLog_appends_to_GetLogs (w : world S) (vmlog : types_Log) (ls : list Log) :
  all_logs w = Some ls ->
  exists w', AddLog (Some vmlog) w = Ok tt w' /\
             all_logs w' = Some (ls ++ [vmlogToLog vmlog]) /\
             state (db w') = state (db w).
Proof.
  unfold all_logs, GetLogs. rewrite observe_Journal. intros Hls.
  eexists. split; [unfold AddLog; run; reflexivity|].
  split; [|reflexivity].
  rewrite observe_Journal. simpl. unfold stackedmap.Journal in *.
  rewrite entries_Put_logKey.
  rewrite (visit_all_collect_logs _ _ _ _ Hls). reflexivity.
Qed.

(** X9.  Reverting twice to one revision is reverting once: after
    [RevertToSnapshot(rev)] has returned, the depth is [rev], and a second
    [RevertToSnapshot(rev)] returns with the state, the journal and the
    heap untouched, having called no [Revert] at all. *)
Theorem RevertToSnapshot_twice_is_once (w : world S) (rev : Z) :
  0 <= rev <= stackedmap.Depth (repo (db w)) ->
  exists w1 w2,
    RevertToSnapshot rev w = Ok tt w1 /\
    stackedmap.Depth (repo (db w1)) = rev /\
    RevertToSnapshot rev w1 = Ok tt w2 /\
    db w2 = db w1 /\ heap w2 = heap w1 /\
    calls w2 = calls w1 ++ [CDepth; CDepth; CPopTo rev].
Proof.
  intros Hr.
  assert (Hd1 : stackedmap.Depth
            (stackedmap.mk (stackedmap.base (repo (db w)))
               (drop (Z.to_nat (stackedmap.Depth (repo (db w)) - rev))
                  (stackedmap.frames (repo (db w))))) = rev).
  { unfold stackedmap.Depth in *. simpl. rewrite length_drop. lia. }
  eexists _, _. split; [apply RevertToSnapshot_in_range, Hr|].
  split; [exact Hd1|]. split.
  { apply RevertToSnapshot_in_range. simpl. rewrite Hd1. lia. }
  simpl. rewrite Hd1, Z.sub_diag. simpl. rewrite drop_0.
  repeat split.
Qed.

End Logs.

(** * Further properties of the loops *)

Section ConsentRounds.
Import client.
Variable Consent : Chain -> Block -> Z -> bool * option error.
Variable IsTrunk : Chain -> Header -> bool * option error.
Abbreviation consent := (client.consent Consent IsTrunk).
Abbreviation consent_rounds := (client.consent_rounds Consent IsTrunk).

Lemma replay_app ch es es' : replay ch (es ++ es') = replay (replay ch es) es'.
Proof. unfold replay. apply fold_left_app. Qed.

Lemma consent_replay c now parked ch :
  (consent c now parked ch).1 = replay ch (consent c now parked ch).2.
Proof.
  unfold client.consent. destruct c as [blk|blk|]; simpl.
  - destruct (negb _); [reflexivity|].
    destruct (Consent ch blk now) as [[] [e|]]; simpl; try reflexivity.
    destruct parked; reflexivity.
  - destruct (IsTrunk ch (header blk)) as [[] [e|]]; reflexivity.
  - reflexivity.
Qed.

(** X10.  The chain changes through [AddBlock] alone: after any rounds of the
    consent loop the chain is the one the [AddBlock] calls of those rounds
    build, in their order, from the chain the loop started with. *)
Theorem consent_rounds_chain_is_its_AddBlocks (rs : list round) (ch : Chain) :
  (consent_rounds rs ch).1 = replay ch (consent_rounds rs ch).2.
Proof.
  revert ch. induction rs as [|r rs IH]; intros ch; simpl; [reflexivity|].
  rewrite replay_app, <- consent_replay. apply IH.
Qed.

Lemma consent_broadcasts c now parked ch :
  broadcasts (consent c now parked ch).2 = trunk_adds (consent c now parked ch).2 /\
  (signals (consent c now parked ch).2 <= length (trunk_adds (consent c now parked ch).2))%nat.
Proof.
  unfold client.consent. destruct c as [blk|blk|]; simpl.
  - destruct (negb _); [split; [reflexivity | unfold signals; simpl; lia]|].
    destruct (Consent ch blk now) as [[] [e|]]; simpl;
      try (split; [reflexivity | unfold signals; simpl; lia]).
    destruct parked; (split; [reflexivity | unfold signals; simpl; lia]).
  - destruct (IsTrunk ch (header blk)) as [[] [e|]];
      (split; [reflexivity | unfold signals; simpl; lia]).
  - split; [reflexivity | unfold signals; simpl; lia].
Qed.

(** X11.  Over any rounds of the consent loop, the blocks broadcast to the peers
    are exactly the blocks added on the trunk, in the same order: a branch
    block, a rejected block and a block already known are never broadcast.
    And [bestBlockUpdate] is signalled at most once per block added on the
    trunk. *)
Theorem consent_rounds_broadcast_the_trunk_adds (rs : list round) (ch : Chain) :
  broadcasts (consent_rounds rs ch).2 = trunk_adds (consent_rounds rs ch).2 /\
  (signals (consent_rounds rs ch).2 <= length (trunk_adds (consent_rounds rs ch).2))%nat.
Proof.
  revert ch. induction rs as [|r rs IH]; intros ch; simpl.
  - split; [reflexivity | unfold signals; simpl; lia].
  - destruct (consent_broadcasts (fired r) (now r) (parked r) ch) as [Hb Hs].
    destruct (IH (consent (fired r) (now r) (parked r) ch).1) as [Hb' Hs'].
    unfold broadcasts, trunk_adds, signals in *.
    rewrite !omap_app, !length_app, Hb, Hb'. split; [reflexivity | lia].
Qed.



End ConsentRounds.

Section PackAttempt.
Import client.
Context {Tx P PrivateKey : Type}.
Variable Prepare : Header -> Z -> (Z * P) + error.
Variable adopt : P -> Tx -> P * option error.
Variable commit : P -> PrivateKey -> Block * option error.
Abbreviation pack := (client.pack Prepare adopt commit).





(** X14.  Unless the timer fires, an attempt of [pack] assembles nothing: when
    the best block cannot be read, when [Prepare] turns the attempt down,
    when [bestBlockUpdate] comes first or the context is done, no
    transaction is drawn from the iterator and nothing is adopted,
    committed or handed over. *)
Theorem pack_assembles_only_when_timer_fires
    (ch : Chain) (txIter : list Tx) (key : PrivateKey) (now : Z) (fired : pack_case) :
  fired <> from_waitTime \/
  (GetBestBlock ch).2 <> None \/
  (exists best e, GetBestBlock ch = (Some best, None) /\
                  Prepare (header best) now = inr e) ->
  (pack ch txIter key now fired).1 = txIter /\
  Forall (fun e => is_assembly e = false) (pack ch txIter key now fired).2.
Proof.
  intros H. unfold client.pack.
  destruct (GetBestBlock ch) as [[best|] [e|]] eqn:Eb; simpl;
    try (split; [reflexivity | repeat constructor]).
  destruct (Prepare (header best) now) as [[ts p]|e] eqn:Ep; simpl;
    [|split; [reflexivity | repeat constructor]].
  destruct fired; simpl; try (split; [reflexivity | repeat constructor]).
  exfalso. destruct H as [H | [H | (b & e & H1 & H2)]].
  - apply H. reflexivity.
  - apply H. reflexivity.
  - congruence.
Qed.

(** X15.  The iterator only moves forward: what an attempt of [pack] leaves in it
    is what it held with some first transactions taken off, in any case. *)
Theorem pack_leaves_a_suffix_of_the_iterator
    (ch : Chain) (txIter : list Tx) (key : PrivateKey) (now : Z) (fired : pack_case) :
  exists taken, txIter = taken ++ (pack ch txIter key now fired).1.
Proof.
  assert (Hloop : forall p, exists taken,
            txIter = taken ++ (client.adopt_loop adopt txIter p).1.1).
  { intros p. exists (map fst (client.adopt_loop adopt txIter p).2).
    apply (adoption_shape adopt _ _ _ _ _ (adopt_loop_adoption adopt txIter p)). }
  unfold client.pack.
  destruct (GetBestBlock ch) as [[best|] [e|]]; simpl; try (exists []; reflexivity).
  destruct (Prepare (header best) now) as [[ts p]|e]; simpl;
    [|exists []; reflexivity].
  destruct fired; simpl; try (exists []; reflexivity).
  destruct (commit _ key) as [blk [e|]]; simpl; apply Hloop.
Qed.

End PackAttempt.

(** * Properties of the start-up keys *)

Section Startup.
Import startup.

(** X16.  [homeDir] prefers HOME, then the home directory of the current user,
    then the working directory: a directory it returns without error is one
    of the three, HOME whenever HOME is set; an error it returns is the one
    of [user.Current] or of [os.Getwd], and HOME is then unset; and the
    directory it returns without error is empty only when [os.Getwd]
    returned an empty one. *)
Theorem homeDir_prefers_HOME_then_user_then_cwd (pr : process) :
  (HOME pr <> EmptyString -> homeDir pr = (HOME pr, None)) /\
  (forall dir, homeDir pr = (dir, None) ->
     dir = HOME pr \/ user_Current pr = inl dir \/ Getwd pr = (dir, None)) /\
  (forall dir err, homeDir pr = (dir, Some err) ->
     HOME pr = EmptyString /\
     (user_Current pr = inr err \/
      user_Current pr = inl EmptyString /\ Getwd pr = (dir, Some err))) /\
  (homeDir pr = (EmptyString, None) -> Getwd pr = (EmptyString, None)).
Proof.
  unfold homeDir. destruct (decide (HOME pr <> EmptyString)) as [Hh|Hh].
  - split; [reflexivity|]. split; [intros dir [= <-]; auto|].
    split; [discriminate|]. intros [= E]. congruence.
  - apply dec_stable in Hh. split; [intros Hc; contradiction|].
    destruct (user_Current pr) as [d|e];
      [destruct (decide (d <> EmptyString)) as [Hd|Hd]|].
    + split; [intros dir [= <-]; auto|].
      split; [discriminate|]. intros [= E]. congruence.
    + apply dec_stable in Hd. subst d.
      split; [intros dir E; auto|]. split; [|auto].
      intros dir err E. auto.
    + split; [discriminate|]. split; [|discriminate].
      intros dir err [= <- <-]. auto.
Qed.

Context {PrivateKey : Type}.
Variable Join : string -> string -> string.
Variable IsAbs : string -> bool.
Variable Abs : string -> string * option oserror.
Variable writable : string -> bool.
Abbreviation loadNodeKey := (startup.loadNodeKey (PrivateKey := PrivateKey) Join IsAbs Abs writable).

(** X17.  The node key is stable: once [loadNodeKey] has returned a key, every
    later call with the same flag and the same process, over the files the
    first call left, returns that key again and leaves the files alone,
    whatever [crypto.GenerateKey] would return. *)
Theorem loadNodeKey_again_returns_the_same_key
    (nodekey : string) (pr : process) (generated generated' : PrivateKey * option oserror)
    (files files' : gmap string (option PrivateKey)) (key : PrivateKey) :
  loadNodeKey nodekey pr generated files = (Some key, None, files') ->
  loadNodeKey nodekey pr generated' files' = (Some key, None, files').
Proof.
  unfold startup.loadNodeKey.
  set (located := if decide (nodekey = EmptyString) then _ else _).
  destruct located as [keyFile [err|]]; simpl; [discriminate|].
  unfold LoadECDSA, SaveECDSA.
  destruct (files !! keyFile) as [[k|]|] eqn:El; simpl.
  - intros [= <- <-]. rewrite El. reflexivity.
  - discriminate.
  - destruct generated as [g [e|]]; simpl; [discriminate|].
    destruct (writable keyFile); simpl; [|discriminate].
    intros [= <- <-]. rewrite lookup_insert_eq. reflexivity.
Qed.

(** X18.  [loadNodeKey] never writes over a file: every path that named a file
    before names the same file after, so a key file that exists, readable
    or not, is left as it is.  And it returns a key exactly when it returns
    no error. *)
Theorem loadNodeKey_keeps_existing_files
    (nodekey : string) (pr : process) (generated : PrivateKey * option oserror)
    (files : gmap string (option PrivateKey)) :
  let r := loadNodeKey nodekey pr generated files in
  (forall file, is_Some (files !! file) -> r.2 !! file = files !! file) /\
  (is_Some r.1.1 <-> r.1.2 = None).
Proof.
  unfold startup.loadNodeKey.
  set (located := if decide (nodekey = EmptyString) then _ else _).
  destruct located as [keyFile [err|]]; simpl.
  { split; [reflexivity|]. split; [intros [? ?]|]; discriminate. }
  unfold LoadECDSA, SaveECDSA.
  destruct (files !! keyFile) as [[k|]|] eqn:El; simpl.
  - split; [reflexivity|]. split; eauto.
  - split; [reflexivity|]. split; [intros [? ?]|]; discriminate.
  - destruct generated as [g [e|]]; simpl.
    { split; [reflexivity|]. split; [intros [? ?]|]; discriminate. }
    destruct (writable keyFile); simpl.
    + split; [|split; eauto].
      intros file [c Hc]. apply lookup_insert_ne. congruence.
    + split; [reflexivity|]. split; [intros [? ?]|]; discriminate.
Qed.

Variable HexToECDSA : string -> PrivateKey + oserror.
Variable PubkeyToAddress : PrivateKey -> Address.
Abbreviation loadAccount := (startup.loadAccount HexToECDSA PubkeyToAddress).

(** X19.  The account [loadAccount] returns is the one of the key flag, with the
    address derived from that key, or else one of the development
    accounts; it fails only on a key flag that does not decode, and it
    panics exactly when there is no key flag and no development account. *)
Theorem loadAccount_key_flag_else_development_account
    (keyString : string) (Accounts : list (Address * PrivateKey)) (draw : nat) :
  (forall addr key, loadAccount keyString Accounts draw = account addr key ->
     keyString <> EmptyString /\ HexToECDSA keyString = inl key /\
       addr = PubkeyToAddress key \/
     keyString = EmptyString /\ (addr, key) ∈ Accounts) /\
  (forall err, loadAccount keyString Accounts draw = account_error err ->
     keyString <> EmptyString /\ HexToECDSA keyString = inr err) /\
  (loadAccount keyString Accounts draw = account_panic <->
     keyString = EmptyString /\ Accounts = []).
Proof.
  unfold startup.loadAccount.
  destruct (decide (keyString <> EmptyString)) as [Hk|Hk].
  - destruct (HexToECDSA keyString) as [key|err] eqn:Eh.
    + split; [intros addr k [= <- <-]; auto|].
      split; [discriminate|]. split; [discriminate | intros [? _]; contradiction].
    + split; [discriminate|].
      split; [intros e [= <-]; auto|].
      split; [discriminate | intros [? _]; contradiction].
  - apply dec_stable in Hk.
    destruct (decide (length Accounts = 0%nat)) as [Hl|Hl].
    + apply length_zero_iff_nil in Hl. subst Accounts.
      split; [discriminate|]. split; [discriminate|]. split; auto.
    + assert (Hlt : (draw mod length Accounts < length Accounts)%nat)
        by (apply Nat.mod_upper_bound; exact Hl).
      destruct (lookup_lt_is_Some_2 _ _ Hlt) as [[a k] Ha]. rewrite Ha. simpl.
      split.
      { intros addr key [= <- <-]. right. split; [exact Hk|].
        eapply list_elem_of_lookup_2, Ha. }
      split; [discriminate|].
      split; [discriminate|]. intros [_ ->]. simpl in Hl. contradiction.
Qed.

End Startup.

(** * The further properties at work on concrete inputs *)

Lemma memstate_GetBalance_SetBalance (s : memstate.t) (a : Address) (v : Z) :
  state_GetBalance (state_SetBalance s a v) a = v.
Proof.
  simpl. unfold memstate.get, memstate.set. simpl.
  rewrite lookup_insert_eq. reflexivity.
Qed.

(** Reading the funded world five times over leaves it showing the same. *)
Lemma reading_changes_nothing_observable_witness :
  let qs := [qGetBalance 7%N; qGetRefund; qHasSuicided 7%N; qGetLogs; qEmpty 9%N] in
  let w' := world_after (foldr (fun q k => ask q;; k) (ret tt) qs) funded_world in
  foldr (fun q k => ask q;; k) (ret tt) qs funded_world = Ok tt w' /\
  db w' = db funded_world /\ same_observables funded_world w'.
Proof.
  intros qs w'.
  assert (H : foldr (fun q k => ask q;; k) (ret tt) qs funded_world = Ok tt w')
    by (vm_compute; reflexivity).
  split; [exact H|].
  destruct (reading_changes_nothing_observable qs funded_world w' H) as (Hd & _ & Ho).
  split; assumption.
Defined.

(** Adding the 100 of cell 0 to address 7 and subtracting it again. *)
Lemma AddBalance_then_SubBalance_restores_balance_witness :
  heap fresh_world !! 0%nat = Some 100 /\
  observe_big (AddBalance 7%N 0%nat;; SubBalance 7%N 0%nat;; GetBalance 7%N) fresh_world =
  observe_big (GetBalance 7%N) fresh_world.
Proof.
  split; [reflexivity|].
  exact (AddBalance_then_SubBalance_restores_balance fresh_world 7%N 0%nat 100
           memstate_GetBalance_SetBalance eq_refl).
Defined.

(** Two snapshots among four mutations raise the depth from 0 to 2. *)
Lemma mutations_raise_depth_by_snapshots_witness :
  let ms := [mSnapshot; mAddPreimage 11%N [1]; mSnapshot; mAddRefund 1%nat] in
  let w' := world_after (mutate_all ms) fresh_world in
  mutate_all ms fresh_world = Ok tt w' /\
  stackedmap.Depth (repo (db w')) = 0 + 2.
Proof.
  intros ms w'.
  assert (H : mutate_all ms fresh_world = Ok tt w') by (vm_compute; reflexivity).
  split; [exact H|].
  exact (mutations_raise_depth_by_snapshots ms fresh_world w' H).
Defined.

(** Address 7 is flagged; funding it again, giving it code and taking a
    snapshot leave it flagged. *)
Lemma HasSuicided_stays_true_through_mutations_witness :
  let w := world_after (Suicide 7%N) funded_world in
  let ms := [mAddBalance 7%N 1%nat; mSetCode 7%N [1; 2]; mSnapshot] in
  let w' := world_after (mutate_all ms) w in
  observe (HasSuicided 7%N) w = Some true /\
  mutate_all ms w = Ok tt w' /\
  observe (HasSuicided 7%N) w' = Some true.
Proof.
  intros w ms w'.
  assert (H1 : observe (HasSuicided 7%N) w = Some true) by (vm_compute; reflexivity).
  assert (H2 : mutate_all ms w = Ok tt w') by (vm_compute; reflexivity).
  split; [exact H1|]. split; [exact H2|].
  exact (HasSuicided_stays_true_through_mutations ms w w' 7%N H1 H2).
Defined.

(** Refunds of 100 and 40 on a fresh facade add up to 140. *)
Lemma AddRefund_accumulates_witness :
  observe_big GetRefund fresh_world = Some 0 /\
  exists w', mutate_all (map mAddRefund [0%nat; 1%nat]) fresh_world = Ok tt w' /\
             observe_big GetRefund w' = Some (0 + foldr Z.add 0 [100; 40]).
Proof.
  assert (H0 : observe_big GetRefund fresh_world = Some 0) by (vm_compute; reflexivity).
  split; [exact H0|].
  apply (AddRefund_accumulates [0%nat; 1%nat] [100; 40] fresh_world 0);
    [repeat constructor | exact H0].
Defined.

(** The first log of a fresh facade. *)
Lemma AddLog_appends_to_GetLogs_witness :
  all_logs fresh_world = Some [] /\
  exists w', AddLog (Some (mk_types_Log 7%N [5%N] [9])) fresh_world = Ok tt w' /\
             all_logs w' = Some ([] ++ [vmlogToLog (mk_types_Log 7%N [5%N] [9])]) /\
             state (db w') = state (db fresh_world).
Proof.
  assert (H0 : all_logs fresh_world = Some []) by (vm_compute; reflexivity).
  split; [exact H0|].
  exact (AddLog_appends_to_GetLogs fresh_world (mk_types_Log 7%N [5%N] [9]) [] H0).
Defined.

(** Two snapshots deep, reverting to revision 1 twice. *)
Lemma RevertToSnapshot_twice_is_once_witness :
  let w := world_after (Snapshot;; Snapshot) fresh_world in
  0 <= 1 <= stackedmap.Depth (repo (db w)) /\
  exists w1 w2,
    RevertToSnapshot 1 w = Ok tt w1 /\
    stackedmap.Depth (repo (db w1)) = 1 /\
    RevertToSnapshot 1 w1 = Ok tt w2 /\
    db w2 = db w1 /\ heap w2 = heap w1 /\
    calls w2 = calls w1 ++ [CDepth; CDepth; CPopTo 1].
Proof.
  intros w.
  assert (H : 0 <= 1 <= stackedmap.Depth (repo (db w))) by (vm_compute; split; discriminate).
  split; [exact H|].
  exact (RevertToSnapshot_twice_is_once w 1 H).
Defined.


(** The chain tip moves while the packer waits: nothing is assembled and
    the iterator keeps its two transactions. *)
Lemma pack_assembles_only_when_timer_fires_witness :
  let ch := client.AddBlock client.empty_Chain client.block_5 true in
  let r := client.pack (fun parent now => inl (now + 2, 10)) client.sample_adopt
             (fun gas (_ : unit) =>
                (client.mk_Block (client.mk_Header 66%N 6) (10 - gas), None))
             ch [3; 4] tt 100 client.from_bestBlockUpdate in
  r.1 = [3; 4] /\ Forall (fun e => is_assembly e = false) r.2.
Proof.
  intros ch r.
  apply (pack_assembles_only_when_timer_fires
           (fun parent now => inl (now + 2, 10)) client.sample_adopt
           (fun gas (_ : unit) =>
              (client.mk_Block (client.mk_Header 66%N 6) (10 - gas), None))
           ch [3; 4] tt 100 client.from_bestBlockUpdate).
  left. discriminate.
Defined.

(** A first start with no flag and no key file writes the generated key 42
    under HOME; the next start, whatever would be generated, loads 42. *)
Lemma loadNodeKey_again_returns_the_same_key_witness :
  let Join := fun dir name : string => (dir +:+ "/" +:+ name)%string in
  let pr := startup.mk_process "/home/thor" (inr startup.errNotExist)
              (EmptyString, None) in
  let files' : gmap string (option Z) := {[ "/home/thor/.thor-node.key"%string := Some 42 ]} in
  startup.loadNodeKey Join (fun _ => true) (fun p => (p, None)) (fun _ => true)
    EmptyString pr (42, None) ∅ = (Some 42, None, files') /\
  startup.loadNodeKey Join (fun _ => true) (fun p => (p, None)) (fun _ => true)
    EmptyString pr (7, Some (startup.errFailed 9)) files' = (Some 42, None, files').
Proof.
  intros Join pr files'.
  assert (H : startup.loadNodeKey Join (fun _ => true) (fun p => (p, None))
                (fun _ => true) EmptyString pr (42, None) ∅ = (Some 42, None, files'))
    by (vm_compute; reflexivity).
  split; [exact H|].
  exact (loadNodeKey_again_returns_the_same_key Join (fun _ => true)
           (fun p => (p, None)) (fun _ => true) EmptyString pr (42, None)
           (7, Some (startup.errFailed 9)) ∅ files' 42 H).
Defined.
